(** * snapborg: retention selection, backup state tracking and result aggregation

    A shallow embedding of [snapborg/retention.py], [snapborg/util.py],
    [snapborg/results.py], [snapborg/snapper.py], the repository settings
    and pruning of [snapborg/borg.py] and the backup path of
    [snapborg/commands/snapborg.py]. *)

From Stdlib Require Import ZArith Zwf List String Ascii Bool Lia.
From Stdlib Require Import Wellfounded.Inverse_Image Sorting.Permutation Sorting.Sorted.
Import ListNotations.
Open Scope Z_scope.

(** ** Python exceptions and results of calls that may raise *)
Module Py.

Inductive PyError : Type :=
| OverflowError
| ValueError
| SnapperExecutionException
| BorgExecutionException (returncode : Z).

(** The outcome of a Python call: a returned value or an exception. *)
Inductive Exc (A : Type) : Type :=
| Ok (a : A)
| Raise (e : PyError).
Arguments Ok {A} a.
Arguments Raise {A} e.

Definition bind {A B} (m : Exc A) (f : A -> Exc B) : Exc B :=
  match m with
  | Ok a => f a
  | Raise e => Raise e
  end.

Lemma bind_inv {A B} (m : Exc A) (f : A -> Exc B) r :
  bind m f = Ok r -> exists x, m = Ok x /\ f x = Ok r.
Proof. destruct m as [x|e]; simpl; [eauto|discriminate]. Qed.

End Py.
Import Py.

Notation "'let!' x := m 'in' k" := (bind m (fun x => k))
  (at level 200, x name, m at level 100, k at level 200).

(** ** Naive [datetime] (Python's [datetime] module)

    A naive datetime is the number of microseconds since
    0001-01-01T00:00:00 in the proleptic Gregorian calendar, the range of
    Python's [datetime.min] .. [datetime.max]; a [date] is its day number
    ([toordinal() - 1]); a [timedelta] is a number of microseconds. *)
Module PyDatetime.

Abbreviation datetime := Z (only parsing).
Abbreviation date := Z (only parsing).
Abbreviation timedelta := Z (only parsing).

Definition MICRO_PER_MINUTE : Z := 60000000.
Definition MICRO_PER_HOUR : Z := 60 * MICRO_PER_MINUTE.
Definition MICRO_PER_DAY : Z := 24 * MICRO_PER_HOUR.

Definition minutes (n : Z) : timedelta := n * MICRO_PER_MINUTE.
Definition hours (n : Z) : timedelta := n * MICRO_PER_HOUR.
Definition days (n : Z) : timedelta := n * MICRO_PER_DAY.
Definition weeks (n : Z) : timedelta := 7 * days n.

Definition MINYEAR : Z := 1.
Definition MAXYEAR : Z := 9999.
(** [date.max.toordinal()] *)
Definition MAXORDINAL : Z := 3652059.
Definition datetime_max : datetime := MAXORDINAL * MICRO_PER_DAY - 1.

Definition valid_datetime (x : datetime) : Prop := 0 <= x <= datetime_max.

(** Day number of 1970-01-01. *)
Definition EPOCH_DAYS : Z := 719162.

(** Days from 1970-01-01 to a civil date, and back (H. Hinnant's algorithms
    over the proleptic Gregorian calendar, with floor division). *)
Definition days_from_civil (y m d : Z) : Z :=
  let y' := if m <=? 2 then y - 1 else y in
  let era := y' / 400 in
  let yoe := y' - era * 400 in
  let mp := if 2 <? m then m - 3 else m + 9 in
  let doy := (153 * mp + 2) / 5 + d - 1 in
  let doe := yoe * 365 + yoe / 4 - yoe / 100 + doy in
  era * 146097 + doe - 719468.

Definition civil_from_days (z : Z) : Z * Z * Z :=
  let z' := z + 719468 in
  let era := z' / 146097 in
  let doe := z' - era * 146097 in
  let yoe := (doe - doe / 1460 + doe / 36524 - doe / 146096) / 365 in
  let y := yoe + era * 400 in
  let doy := doe - (365 * yoe + yoe / 4 - yoe / 100) in
  let mp := (5 * doy + 2) / 153 in
  let d := doy - (153 * mp + 2) / 5 + 1 in
  let m := if mp <? 10 then mp + 3 else mp - 9 in
  (if m <=? 2 then y + 1 else y, m, d).

(** [x.date()] *)
Definition to_date (x : datetime) : date := x / MICRO_PER_DAY.
Definition date_year (t : date) : Z := fst (fst (civil_from_days (t - EPOCH_DAYS))).
Definition date_month (t : date) : Z := snd (fst (civil_from_days (t - EPOCH_DAYS))).
(** [date.weekday()]: Monday is 0; 0001-01-01 is a Monday. *)
Definition weekday (t : date) : Z := t mod 7.

Definition year (x : datetime) : Z := date_year (to_date x).
Definition month (x : datetime) : Z := date_month (to_date x).
Definition hour (x : datetime) : Z := (x mod MICRO_PER_DAY) / MICRO_PER_HOUR.
Definition minute (x : datetime) : Z := (x mod MICRO_PER_HOUR) / MICRO_PER_MINUTE.

(** [datetime.combine(t, time(h, mi))] *)
Definition combine (t : date) (h mi : Z) : datetime :=
  t * MICRO_PER_DAY + h * MICRO_PER_HOUR + mi * MICRO_PER_MINUTE.

Definition is_leap (y : Z) : bool :=
  (y mod 4 =? 0) && (negb (y mod 100 =? 0) || (y mod 400 =? 0)).

Definition days_in_month (y m : Z) : Z :=
  if m =? 2 then (if is_leap y then 29 else 28)
  else if (m =? 4) || (m =? 6) || (m =? 9) || (m =? 11) then 30
  else 31.

(** The instant of midnight starting a civil date. *)
Definition of_ymd (y m d : Z) : datetime :=
  (days_from_civil y m d + EPOCH_DAYS) * MICRO_PER_DAY.

(** The constructor [datetime(y, m, d)], which raises [ValueError] out of
    range. *)
Definition mk_datetime (y m d : Z) : Exc datetime :=
  if (MINYEAR <=? y) && (y <=? MAXYEAR) && (1 <=? m) && (m <=? 12)
     && (1 <=? d) && (d <=? days_in_month y m)
  then Ok (of_ymd y m d)
  else Raise ValueError.

(** [x - td], which raises [OverflowError] out of range. *)
Definition sub (x : datetime) (td : timedelta) : Exc datetime :=
  let r := x - td in
  if (0 <=? r) && (r <=? datetime_max) then Ok r else Raise OverflowError.

(** *** Calendar facts *)

Lemma yoe_range doe : 0 <= doe <= 146096 ->
  0 <= (doe - doe / 1460 + doe / 36524 - doe / 146096) / 365 <= 399.
Proof. intros. Z.div_mod_to_equations. lia. Qed.

Lemma doy_range doe : 0 <= doe <= 146096 ->
  let yoe := (doe - doe / 1460 + doe / 36524 - doe / 146096) / 365 in
  0 <= doe - (365 * yoe + yoe / 4 - yoe / 100) <= 365.
Proof. intros H yoe. subst yoe. Z.div_mod_to_equations. lia. Qed.

Lemma civil_from_days_spec z :
  let '(y, m, d) := civil_from_days z in
  days_from_civil y m d = z /\ 1 <= m <= 12 /\ 1 <= d.
Proof.
  unfold civil_from_days.
  set (z' := z + 719468).
  set (era := z' / 146097).
  set (doe := z' - era * 146097).
  assert (Hdoe : 0 <= doe <= 146096) by (subst doe era; Z.div_mod_to_equations; lia).
  pose proof (yoe_range doe Hdoe) as Hy.
  pose proof (doy_range doe Hdoe) as Hd. cbv zeta in Hd.
  set (yoe := (doe - doe / 1460 + doe / 36524 - doe / 146096) / 365) in *.
  set (doy := doe - (365 * yoe + yoe / 4 - yoe / 100)) in *.
  set (mp := (5 * doy + 2) / 153).
  assert (Hmp : 0 <= mp <= 11) by (subst mp; Z.div_mod_to_equations; lia).
  assert (Hdd : 1 <= doy - (153 * mp + 2) / 5 + 1) by (subst mp; Z.div_mod_to_equations; lia).
  unfold days_from_civil.
  destruct (mp <? 10) eqn:E1.
  - apply Z.ltb_lt in E1.
    replace (mp + 3 <=? 2) with false by (symmetry; apply Z.leb_gt; lia).
    replace (2 <? mp + 3) with true by (symmetry; apply Z.ltb_lt; lia).
    replace ((yoe + era * 400) / 400) with era by (Z.div_mod_to_equations; lia).
    split; [|lia].
    replace (yoe + era * 400 - era * 400) with yoe by lia.
    replace (mp + 3 - 3) with mp by lia.
    subst doy doe z'. lia.
  - apply Z.ltb_ge in E1.
    replace (mp - 9 <=? 2) with true by (symmetry; apply Z.leb_le; lia).
    replace (2 <? mp - 9) with false by (symmetry; apply Z.ltb_ge; lia).
    replace (yoe + era * 400 + 1 - 1) with (yoe + era * 400) by lia.
    replace ((yoe + era * 400) / 400) with era by (Z.div_mod_to_equations; lia).
    split; [|lia].
    replace (yoe + era * 400 - era * 400) with yoe by lia.
    replace (mp - 9 + 9) with mp by lia.
    subst doy doe z'. lia.
Qed.

Lemma days_from_civil_day y m d : days_from_civil y m d = days_from_civil y m 1 + (d - 1).
Proof. unfold days_from_civil. lia. Qed.

Lemma days_from_civil_prev_month y m : 2 <= m <= 12 ->
  days_from_civil y (m - 1) 1 < days_from_civil y m 1.
Proof.
  intros H. unfold days_from_civil.
  assert (m = 2 \/ m = 3 \/ 4 <= m) as [->|[->|Hm]] by lia.
  - simpl. Z.div_mod_to_equations. lia.
  - simpl. Z.div_mod_to_equations. lia.
  - replace (m - 1 <=? 2) with false by (symmetry; apply Z.leb_gt; lia).
    replace (m <=? 2) with false by (symmetry; apply Z.leb_gt; lia).
    replace (2 <? m - 1) with true by (symmetry; apply Z.ltb_lt; lia).
    replace (2 <? m) with true by (symmetry; apply Z.ltb_lt; lia).
    Z.div_mod_to_equations. lia.
Qed.

Lemma days_from_civil_prev_year y :
  days_from_civil (y - 1) 12 1 < days_from_civil y 1 1.
Proof.
  unfold days_from_civil. simpl.
  set (q := (y - 1) / 400). set (r := y - 1 - q * 400).
  set (a := r / 4). set (b := r / 100). lia.
Qed.

Lemma days_from_civil_min y m : 1 <= y -> 1 <= m <= 12 ->
  days_from_civil 1 1 1 <= days_from_civil y m 1.
Proof.
  intros Hy Hm. change (days_from_civil 1 1 1) with (-719162).
  unfold days_from_civil.
  destruct (m <=? 2) eqn:E1; destruct (2 <? m) eqn:E2;
    rewrite ?Z.leb_le, ?Z.leb_gt, ?Z.ltb_lt, ?Z.ltb_ge in *; try lia;
    Z.div_mod_to_equations; lia.
Qed.

End PyDatetime.

(** ** [snapborg/util.py] *)
Module Util.

(** [split(data, pred)]: the items satisfying [pred], then the others, both
    in input order. *)
Fixpoint split {X : Type} (data : list X) (pred : X -> bool) : list X * list X :=
  match data with
  | [] => ([], [])
  | d :: rest =>
      let '(yes, no) := split rest pred in
      if pred d then (d :: yes, no) else (yes, d :: no)
  end.

End Util.

(** ** [snapborg/retention.py] *)
Module Retention.
Import PyDatetime.

(** The six generational tiers of [timedeltas], in their order. *)
Inductive Tier : Type := Minutely | Hourly | Daily | Weekly | Monthly | Yearly.

(** The [lambda]s of [timedeltas]: the start of the interval preceding the
    one starting at [x]. *)
Definition prev_date_fn (t : Tier) (x : datetime) : Exc datetime :=
  match t with
  | Minutely => sub x (minutes 1)
  | Hourly => sub x (hours 1)
  | Daily => sub x (days 1)
  | Weekly => sub x (weeks 1)
  | Monthly =>
      mk_datetime (if negb (month x =? 1) then year x else year x - 1)
                  ((month x + 10) mod 12 + 1) 1
  | Yearly => mk_datetime (year x - 1) 1 1
  end.

Lemma mk_datetime_ok y m d r : mk_datetime y m d = Ok r ->
  r = of_ymd y m d /\ 1 <= y /\ 1 <= m <= 12.
Proof.
  unfold mk_datetime, MINYEAR.
  destruct (_ && _) eqn:E; intros H; inversion H; subst.
  rewrite !andb_true_iff, !Z.leb_le in E. lia.
Qed.

Lemma days_from_civil_month_mono y m1 m2 : 1 <= m1 <= m2 -> m2 <= 12 ->
  days_from_civil y m1 1 <= days_from_civil y m2 1.
Proof.
  intros H1 H2. unfold days_from_civil.
  destruct (m1 <=? 2) eqn:E1; destruct (2 <? m1) eqn:E2;
  destruct (m2 <=? 2) eqn:E3; destruct (2 <? m2) eqn:E4;
    rewrite ?Z.leb_le, ?Z.leb_gt, ?Z.ltb_lt, ?Z.ltb_ge in *; try lia;
    Z.div_mod_to_equations; lia.
Qed.

(** A midnight of a civil date from year 1 on, earlier than the first day of
    the month of [x], lies in [0, x). *)
Lemma of_ymd_before y m x : 1 <= y -> 1 <= m <= 12 ->
  days_from_civil y m 1 < days_from_civil (year x) (month x) 1 ->
  0 <= of_ymd y m 1 < x.
Proof.
  intros Hy Hm Hlt. unfold year, month, date_year, date_month in Hlt.
  pose proof (civil_from_days_spec (to_date x - EPOCH_DAYS)) as Hc.
  destruct (civil_from_days (to_date x - EPOCH_DAYS)) as [[Y M] D] eqn:E.
  simpl in Hlt. destruct Hc as (Heq & HM & HD).
  pose proof (days_from_civil_day Y M D) as Hday.
  pose proof (days_from_civil_min y m Hy Hm) as Hmin.
  change (days_from_civil 1 1 1) with (-719162) in Hmin.
  unfold of_ymd, to_date, EPOCH_DAYS in *.
  unfold MICRO_PER_DAY, MICRO_PER_HOUR, MICRO_PER_MINUTE in *.
  Z.div_mod_to_equations. lia.
Qed.

Lemma month_range x : 1 <= month x <= 12.
Proof.
  unfold month, date_month.
  pose proof (civil_from_days_spec (to_date x - EPOCH_DAYS)) as Hc.
  destruct (civil_from_days (to_date x - EPOCH_DAYS)) as [[Y M] D]. simpl. lia.
Qed.

(** Every step back of a tier moves the interval start strictly into the
    past and stays within the range of [datetime]. *)
Lemma prev_date_fn_lt t x y : prev_date_fn t x = Ok y -> 0 <= y < x.
Proof.
  pose proof (month_range x) as HM.
  destruct t; simpl; intros H.
  1-4: unfold sub in H; destruct (_ && _) eqn:E; inversion H; subst;
       rewrite andb_true_iff, !Z.leb_le in E;
       unfold weeks, minutes, hours, days, MICRO_PER_DAY, MICRO_PER_HOUR,
         MICRO_PER_MINUTE in *; lia.
  - apply mk_datetime_ok in H as (-> & Hy & Hm).
    apply of_ymd_before; try lia.
    destruct (month x =? 1) eqn:E; simpl in *.
    + apply Z.eqb_eq in E. rewrite E in *. simpl.
      apply days_from_civil_prev_year.
    + apply Z.eqb_neq in E.
      replace ((month x + 10) mod 12 + 1) with (month x - 1)
        by (rewrite <- (Z.mod_unique (month x + 10) 12 1 (month x - 2)); lia).
      apply days_from_civil_prev_month. lia.
  - apply mk_datetime_ok in H as (-> & Hy & Hm).
    apply of_ymd_before; try lia.
    eapply Z.le_lt_trans; [apply days_from_civil_month_mono with (m2 := 12); lia|].
    eapply Z.lt_le_trans; [apply days_from_civil_prev_year|].
    apply days_from_civil_month_mono; lia.
Qed.

Section Selection.

Variable A : Type.
Variable A_eq_dec : forall a b : A, {a = b} + {a <> b}.

(** An entry [(date_key(snapshot), snapshot)] of [with_date]. *)
Definition entry : Type := (datetime * A)%type.

(** [retained.add(a)] on the Python [set] [retained]. *)
Definition set_add (a : A) (s : list A) : list A :=
  if in_dec A_eq_dec a s then s else s ++ [a].

(** [sorted(..., key=lambda entry: entry[0])]: a stable sort by date. *)
Fixpoint insert_entry (e : entry) (l : list entry) : list entry :=
  match l with
  | [] => [e]
  | h :: t => if fst e <=? fst h then e :: l else h :: insert_entry e t
  end.

Fixpoint sort_entries (l : list entry) : list entry :=
  match l with
  | [] => []
  | h :: t => insert_entry h (sort_entries t)
  end.

(** [max(l, key=lambda x: x[0], default=None)]: the first maximal entry. *)
Definition py_max_by_date (l : list entry) : option entry :=
  fold_left (fun acc x =>
               match acc with
               | None => Some x
               | Some m => if fst m <? fst x then Some x else Some m
               end) l None.

(** [l[-k:]] for [k > 0]. *)
Definition slice_last (k : Z) (l : list entry) : list entry :=
  skipn (List.length l - Z.to_nat k) l.

(** The local state of the [while] loop of one tier. *)
Record TierState : Type := mkTierState {
  nr_keep : Z;
  int_start : datetime;
  int_end : datetime;
  snapshots_remaining : list entry;
  retained : list A
}.

(** One iteration of [while nr_keep > 0 and len(snapshots_remaining) > 0]:
    [inl] the state of the next iteration, [inr] the loop is left, either
    normally with the retained set or by an exception. *)
Definition tier_step (t : Tier) (s : TierState) : TierState + Exc (list A) :=
  if (0 <? nr_keep s) &&
     match snapshots_remaining s with [] => false | _ => true end
  then
    let '(snapshots_to_consider, rem) :=
      Util.split (snapshots_remaining s)
                 (fun x => (int_start s <=? fst x) && (fst x <? int_end s)) in
    let '(ret, nk) :=
      match py_max_by_date snapshots_to_consider with
      | Some last_snapshot => (set_add (snd last_snapshot) (retained s), nr_keep s - 1)
      | None => (retained s, nr_keep s)
      end in
    match prev_date_fn t (int_start s) with
    | Ok p => inl (mkTierState nk p (int_start s) rem ret)
    | Raise e => inr (Raise e)
    end
  else inr (Ok (retained s)).

(** The loop moves the interval start strictly back, above [datetime.min]. *)
Definition tier_lt (s' s : TierState) : Prop := Zwf 0 (int_start s') (int_start s).

Lemma tier_lt_wf : well_founded tier_lt.
Proof. exact (wf_inverse_image _ _ (Zwf 0) int_start (Zwf_well_founded 0)). Qed.

Lemma tier_step_lt t s s' : tier_step t s = inl s' -> tier_lt s' s.
Proof.
  unfold tier_step, tier_lt, Zwf.
  destruct (_ && _); [|discriminate].
  destruct (Util.split _ _) as [c rem].
  destruct (py_max_by_date c) as [e|];
  destruct (prev_date_fn t (int_start s)) as [p|] eqn:E; try discriminate;
  intros H; inversion H; subst; simpl; apply prev_date_fn_lt in E; lia.
Qed.

Definition tier_step_dep (t : Tier) (s : TierState) :
  {s' | tier_lt s' s} + Exc (list A) :=
  match tier_step t s as o return tier_step t s = o -> _ with
  | inl s' => fun H => inl (exist _ s' (tier_step_lt t s s' H))
  | inr r => fun _ => inr r
  end eq_refl.

Lemma tier_step_dep_spec t s :
  match tier_step_dep t s with
  | inl (exist _ s' _) => tier_step t s = inl s'
  | inr r => tier_step t s = inr r
  end.
Proof.
  unfold tier_step_dep. generalize (tier_step_lt t s).
  destruct (tier_step t s); reflexivity.
Qed.

(** The [while] loop of one tier, by well-founded recursion on the start of
    the searched interval. *)
Fixpoint tier_loop_acc (t : Tier) (s : TierState) (acc : Acc tier_lt s)
  {struct acc} : Exc (list A) :=
  match tier_step_dep t s with
  | inl (exist _ s' H) => tier_loop_acc t s' (Acc_inv acc H)
  | inr r => r
  end.

Definition tier_loop (t : Tier) (s : TierState) : Exc (list A) :=
  tier_loop_acc t s (Acc_intro_generator 40 tier_lt_wf s).

(** The tiers one after the other, each scanning all of [with_date]. *)
Fixpoint run_tiers (now : datetime) (with_date : list entry)
  (timedeltas : list (Z * Tier * datetime)) (ret : list A) : Exc (list A) :=
  match timedeltas with
  | [] => Ok ret
  | (nk, t, first_date) :: rest =>
      let! ret' := tier_loop t (mkTierState nk first_date now with_date ret) in
      run_tiers now with_date rest ret'
  end.

(** [get_retained_snapshots(snapshots, date_key, keep_last, ...)], where
    [now] is the value read by [datetime.now()]. The result is the list of
    the Python set [retained]. *)
Definition get_retained_snapshots (now : datetime) (snapshots : list A)
  (date_key : A -> datetime)
  (keep_last keep_minutely keep_hourly keep_daily keep_weekly keep_monthly
     keep_yearly : Z) : Exc (list A) :=
  let today := to_date now in
  let start_of_today := combine today 0 0 in
  let with_date := sort_entries (map (fun snapshot => (date_key snapshot, snapshot)) snapshots) in
  let ret :=
    if 0 <? keep_last
    then fold_left (fun r it => set_add (snd it) r) (slice_last keep_last with_date) []
    else [] in
  let! week_start := sub start_of_today (days (weekday today)) in
  (* [datetime(today.year, today.month, 1)] and [datetime(today.year, 1, 1)]
     take their fields from a valid date and cannot raise *)
  let timedeltas :=
    [(keep_minutely, Minutely, combine today (hour now) (minute now));
     (keep_hourly, Hourly, combine today (hour now) 0);
     (keep_daily, Daily, start_of_today);
     (keep_weekly, Weekly, week_start);
     (keep_monthly, Monthly, of_ymd (date_year today) (date_month today) 1);
     (keep_yearly, Yearly, of_ymd (date_year today) 1 1)] in
  run_tiers now with_date timedeltas ret.

(** *** Facts about the selection *)

Lemma tier_loop_acc_elim (P : TierState -> Exc (list A) -> Prop) t :
  (forall s r, tier_step t s = inr r -> P s r) ->
  (forall s s' r, tier_step t s = inl s' -> P s' r -> P s r) ->
  forall s acc, P s (tier_loop_acc t s acc).
Proof.
  intros Hdone Hnext s. induction (tier_lt_wf s) as [s _ IH]. intros [g]. simpl.
  pose proof (tier_step_dep_spec t s) as Hspec.
  destruct (tier_step_dep t s) as [[s' Hlt]|r].
  - apply Hnext with s'; [exact Hspec | apply IH; exact Hlt].
  - apply Hdone; exact Hspec.
Qed.

Lemma tier_loop_stop t s r : tier_step t s = inr r -> tier_loop t s = r.
Proof.
  unfold tier_loop. revert r.
  apply (tier_loop_acc_elim (fun s res => forall r, tier_step t s = inr r -> res = r)).
  - intros s0 r0 H r H'. rewrite H in H'. congruence.
  - intros s0 s' r0 H _ r H'. rewrite H in H'. discriminate.
Qed.

Lemma set_add_incl a s : incl s (set_add a s).
Proof.
  unfold set_add. destruct (in_dec A_eq_dec a s); [apply incl_refl|].
  apply incl_appl, incl_refl.
Qed.

Lemma tier_step_retained t s s' : tier_step t s = inl s' -> incl (retained s) (retained s').
Proof.
  unfold tier_step. destruct (_ && _); [|discriminate].
  destruct (Util.split _ _) as [c rem].
  destruct (py_max_by_date c) as [e|];
  destruct (prev_date_fn t (int_start s)); try discriminate;
  intros H; inversion H; subst; simpl; [apply set_add_incl | apply incl_refl].
Qed.

Lemma tier_step_done t s r :
  tier_step t s = inr r -> r = Ok (retained s) \/ exists e, r = Raise e.
Proof.
  unfold tier_step. destruct (_ && _).
  - destruct (Util.split _ _) as [c rem].
    destruct (py_max_by_date c) as [e|];
    destruct (prev_date_fn t (int_start s)); try discriminate;
    intros H; inversion H; subst; eauto.
  - intros H; inversion H; auto.
Qed.

(** The loop of a tier only ever adds to [retained]. *)
Lemma tier_loop_retained t s r : tier_loop t s = Ok r -> incl (retained s) r.
Proof.
  unfold tier_loop.
  apply (tier_loop_acc_elim (fun s res => res = Ok r -> incl (retained s) r)).
  - intros s0 r0 H ->. apply tier_step_done in H as [H|[e H]]; congruence.
  - intros s0 s' r0 H IH Hr. eapply incl_tran; [eapply tier_step_retained; eauto|auto].
Qed.

Lemma run_tiers_retained now wd tds ret r :
  run_tiers now wd tds ret = Ok r -> incl ret r.
Proof.
  revert ret. induction tds as [|[[nk t] fd] rest IH]; simpl; intros ret H.
  - inversion H; apply incl_refl.
  - destruct (tier_loop t _) as [ret'|e] eqn:E; simpl in H; [|discriminate].
    apply tier_loop_retained in E. simpl in E.
    eapply incl_tran; [exact E | apply IH; exact H].
Qed.

(** A tier with no budget, or nothing left to scan, does not iterate. *)
Lemma run_tiers_idle now wd tds ret :
  Forall (fun '(nk, _, _) => nk <= 0 \/ wd = []) tds ->
  run_tiers now wd tds ret = Ok ret.
Proof.
  induction 1 as [|[[nk t] fd] rest Hx _ IH]; simpl; [reflexivity|].
  rewrite tier_loop_stop with (r := Ok ret); [exact IH|].
  unfold tier_step; simpl.
  destruct Hx as [Hx| ->].
  - replace (0 <? nk) with false by (symmetry; apply Z.ltb_ge; lia). reflexivity.
  - rewrite andb_false_r. reflexivity.
Qed.

Lemma week_start_ok now : valid_datetime now ->
  exists w, sub (combine (to_date now) 0 0) (days (weekday (to_date now))) = Ok w.
Proof.
  unfold valid_datetime, sub, combine, days, weekday, to_date, datetime_max.
  intros H. eexists.
  replace ((0 <=? _) && (_ <=? _)) with true; [reflexivity|].
  symmetry. apply andb_true_iff. rewrite !Z.leb_le.
  unfold MICRO_PER_DAY, MICRO_PER_HOUR, MICRO_PER_MINUTE, MAXORDINAL in *.
  Z.div_mod_to_equations. lia.
Qed.

Lemma insert_entry_perm e l : Permutation (insert_entry e l) (e :: l).
Proof.
  induction l as [|h t IH]; simpl; [reflexivity|].
  destruct (fst e <=? fst h); [reflexivity|].
  rewrite IH. apply perm_swap.
Qed.

Lemma sort_entries_perm l : Permutation (sort_entries l) l.
Proof.
  induction l as [|h t IH]; simpl; [reflexivity|].
  rewrite insert_entry_perm. now apply perm_skip.
Qed.

Definition date_le (e1 e2 : entry) : Prop := fst e1 <= fst e2.

Lemma insert_entry_sorted e l :
  StronglySorted date_le l -> StronglySorted date_le (insert_entry e l).
Proof.
  induction 1 as [|h t Hs IH Hall]; simpl.
  - repeat constructor.
  - destruct (fst e <=? fst h) eqn:E.
    + apply Z.leb_le in E. constructor; [constructor; auto|].
      constructor; [exact E|].
      eapply Forall_impl; [|exact Hall]. unfold date_le. intros; lia.
    + apply Z.leb_gt in E. constructor; [exact IH|].
      eapply Permutation_Forall; [symmetry; apply insert_entry_perm|].
      constructor; [unfold date_le; lia | exact Hall].
Qed.

Lemma sort_entries_sorted l : StronglySorted date_le (sort_entries l).
Proof.
  induction l; simpl; [constructor|]. now apply insert_entry_sorted.
Qed.

End Selection.

Arguments set_add {A} A_eq_dec a s.
Arguments insert_entry {A} e l.
Arguments sort_entries {A} l.
Arguments py_max_by_date {A} l.
Arguments slice_last {A} k l.
Arguments mkTierState {A} nr_keep int_start int_end snapshots_remaining retained.
Arguments nr_keep {A} t.
Arguments int_start {A} t.
Arguments int_end {A} t.
Arguments snapshots_remaining {A} t.
Arguments retained {A} t.
Arguments tier_step {A} A_eq_dec t s.
Arguments tier_lt {A} s' s.
Arguments tier_step_dep {A} A_eq_dec t s.
Arguments tier_loop_acc {A} A_eq_dec t s acc.
Arguments tier_loop {A} A_eq_dec t s.
Arguments run_tiers {A} A_eq_dec now with_date timedeltas ret.
Arguments get_retained_snapshots {A} A_eq_dec now snapshots date_key
  keep_last keep_minutely keep_hourly keep_daily keep_weekly keep_monthly keep_yearly.

End Retention.

(** ** [snapborg/results.py] *)
Module Results.

Inductive ResultStatus : Type := OK | WARN | ERR.

Definition status_eqb (a b : ResultStatus) : bool :=
  match a, b with
  | OK, OK | WARN, WARN | ERR, ERR => true
  | _, _ => false
  end.

Lemma status_eqb_eq a b : status_eqb a b = true <-> a = b.
Proof. destruct a, b; simpl; split; congruence. Qed.

(** [CommandResult(message, children, status, task_description)]; the
    constructor argument [status] is the attribute [_status]. *)
#[warnings="-register-all"]
Inductive CommandResult : Type :=
| mkCommandResult (message : option string) (children : list CommandResult)
    (_status : option ResultStatus) (task_description : option string).

Definition message (r : CommandResult) : option string :=
  let '(mkCommandResult m _ _ _) := r in m.
Definition children (r : CommandResult) : list CommandResult :=
  let '(mkCommandResult _ c _ _) := r in c.
Definition _status (r : CommandResult) : option ResultStatus :=
  let '(mkCommandResult _ _ s _) := r in s.
Definition task_description (r : CommandResult) : option string :=
  let '(mkCommandResult _ _ _ t) := r in t.

(** The property [status]. *)
Fixpoint status (r : CommandResult) : ResultStatus :=
  let '(mkCommandResult _ ch st _) := r in
  match st with
  | Some s => s
  | None =>
      if forallb (fun it => status_eqb (status it) OK) ch then OK
      else if existsb (fun it => status_eqb (status it) ERR) ch then ERR
      else WARN
  end.

(** The class methods [ok], [warn], [err] and [from_children]. *)
Definition ok (msg : option string) (ch : list CommandResult) : CommandResult :=
  mkCommandResult msg ch (Some OK) None.
Definition warn (msg : option string) (ch : list CommandResult) : CommandResult :=
  mkCommandResult msg ch (Some WARN) None.
Definition err (msg : option string) (ch : list CommandResult) : CommandResult :=
  mkCommandResult msg ch (Some ERR) None.
Definition from_children (ch : list CommandResult) (msg : option string)
  (task : option string) : CommandResult :=
  mkCommandResult msg ch None task.

End Results.

(** ** Python [str] operations on strings of code points 0..255 *)
Module PyStr.
Local Open Scope string_scope.

(** The characters [str.strip()] removes: those of [str.isspace] among the
    code points 0..255 that a character of [string] stands for (tab, line
    feed, vertical tab, form feed, carriage return, the separators 28..31,
    space, NEL 133 and no-break space 160). *)
Definition whitespace : list ascii :=
  [" "; "009"; "010"; "011"; "012"; "013"; "028"; "029"; "030"; "031"; "133"; "160"]%char.

Definition mem_char (c : ascii) (chars : list ascii) : bool :=
  existsb (Ascii.eqb c) chars.

(** [s.lstrip(chars)] *)
Fixpoint lstrip (chars : list ascii) (s : string) : string :=
  match s with
  | EmptyString => EmptyString
  | String c r => if mem_char c chars then lstrip chars r else s
  end.

Definition rev_string (s : string) : string :=
  string_of_list_ascii (rev (list_ascii_of_string s)).

(** [s.rstrip(chars)] *)
Definition rstrip (chars : list ascii) (s : string) : string :=
  rev_string (lstrip chars (rev_string s)).

(** [s.strip()] *)
Definition strip (s : string) : string := rstrip whitespace (lstrip whitespace s).

(** [s.split(sep)] for a one-character separator. *)
Fixpoint split (sep : ascii) (s : string) : list string :=
  match s with
  | EmptyString => [EmptyString]
  | String c r =>
      if Ascii.eqb c sep then EmptyString :: split sep r
      else match split sep r with
           | h :: t => String c h :: t
           | [] => [String c EmptyString]
           end
  end.

(** [sep.join(l)] *)
Fixpoint join (sep : string) (l : list string) : string :=
  match l with
  | [] => EmptyString
  | x :: r =>
      match r with
      | [] => x
      | _ => x ++ sep ++ join sep r
      end
  end.

(** [str(n)] for an integer. *)
Fixpoint decimal_aux (fuel : nat) (n : Z) (acc : string) : string :=
  match fuel with
  | O => acc
  | S f =>
      let acc' := String (ascii_of_nat (48 + Z.to_nat (n mod 10))%nat) acc in
      if Z.ltb n 10 then acc' else decimal_aux f (n / 10) acc'
  end.

Definition str_of_Z (n : Z) : string :=
  if Z.ltb n 0 then String "-" (decimal_aux 64 (- n) EmptyString)
  else decimal_aux 64 n EmptyString.

End PyStr.

(** ** [snapborg/config.py] (not part of the sources)

    Modelled from the spec: the repository configuration, its [fail_after]
    setting and the reserved legacy repository name that [snapper.py] and
    [commands/snapborg.py] import from [snapborg/config.py]. *)
Module Config.

(** Modelled from the spec: [LEGACY_REPO_NAME], the repository name reserved
    for pre-migration configs; its value is not given, any fixed name
    serves. *)
Definition LEGACY_REPO_NAME : string := "__legacy__".

(** Modelled from the spec: the [retention] section of a repository's
    configuration, the [keep_*] arguments of [get_retained_snapshots]. *)
Record RetentionConfig : Type := mkRetentionConfig {
  keep_last : Z; keep_minutely : Z; keep_hourly : Z; keep_daily : Z;
  keep_weekly : Z; keep_monthly : Z; keep_yearly : Z
}.

(** Modelled from the spec: [get_fail_after()] is [False] (optional repo),
    [True] (mandatory repo) or a [timedelta] (optional with a deadline). *)
Inductive FailAfter : Type :=
| FailAfterBool (b : bool)
| FailAfterDuration (d : PyDatetime.timedelta).

(** Modelled from the spec: the fields of a repository's configuration
    that [backup_to_repo] and [backup_snapshot] read. *)
Record RepoConfig : Type := mkRepoConfig {
  name : string;
  path : string;
  is_old_config : bool;
  retention : RetentionConfig;
  fail_after : FailAfter
}.

(** Modelled from the spec: the legacy name is reserved for old-style
    (pre-migration) configs. *)
Definition reserved_legacy_name (r : RepoConfig) : Prop :=
  is_old_config r = false -> name r <> LEGACY_REPO_NAME.

End Config.

(** ** [snapborg/snapper.py]: snapshots and their backup tags *)
Module Snapper.
Import Config.
Local Open Scope string_scope.

Definition SNAPBORG_BACKUP_KEY_LEGACY : string := "snapborg_backup".
Definition SNAPBORG_BACKUP_KEY : string := "snapborg_backup_repos".

(** [dict.get(key)] on the [userdata] dictionary of a snapshot. *)
Definition dict_get (d : list (string * string)) (k : string) : option string :=
  match find (fun kv => String.eqb (fst kv) k) d with
  | Some kv => Some (snd kv)
  | None => None
  end.

(** [set.add] and [set.discard] on a Python [set] of repository names. *)
Definition str_set_add (a : string) (s : list string) : list string :=
  if existsb (String.eqb a) s then s else s ++ [a].
Definition str_set_discard (a : string) (s : list string) : list string :=
  filter (fun x => negb (String.eqb x a)) s.

(** The parsing part of [SnapperSnapshot.__init__]: the set [_is_backed_up]
    read from the snapshot's [userdata] ([None] when snapper gives none). *)
Definition parse_is_backed_up (userdata : option (list (string * string))) : list string :=
  let ud := match userdata with Some d => d | None => [] end in
  let snapborg_backup_legacy := dict_get ud SNAPBORG_BACKUP_KEY_LEGACY in
  let snapborg_backup := dict_get ud SNAPBORG_BACKUP_KEY in
  let legacy :=
    match snapborg_backup_legacy with
    | Some v => if String.eqb v "true" then [LEGACY_REPO_NAME] else []
    | None => []
    end in
  match snapborg_backup with
  | Some v =>
      if String.eqb v EmptyString then legacy
      else fold_left (fun acc repo => str_set_add (PyStr.strip repo) acc)
             (PyStr.split ";" (PyStr.rstrip [" "; "]"]%char (PyStr.lstrip [" "; "["]%char v)))
             []
  | None => legacy
  end.

(** The tag string [set_backup_status] writes for a set of names. *)
Definition serialize_is_backed_up (s : list string) : string :=
  "[" ++ PyStr.join ";" s ++ "]".

Record SnapperSnapshot : Type := mkSnapperSnapshot {
  number : Z;
  date : PyDatetime.datetime;
  _cleanup : string;
  _is_backed_up : list string
}.

Definition is_backed_up (s : SnapperSnapshot) (repo : string) : bool :=
  existsb (String.eqb repo) (_is_backed_up s).

Definition with_backed_up (s : SnapperSnapshot) (b : list string) : SnapperSnapshot :=
  mkSnapperSnapshot (number s) (date s) (_cleanup s) b.

(** The [snapper modify] invocations of this module. *)
Inductive SnapperCall : Type :=
| ModifyUserdata (nr : Z) (userdata : string)
| ModifyCleanup (nr : Z) (cleanup_algorithm : string).

(** [run_snapper] of a [modify] command: printed only under [dryrun],
    otherwise it raises [SnapperExecutionException] when snapper fails
    ([snapper_ok] says which invocations succeed). *)
Definition run_snapper (snapper_ok : SnapperCall -> bool) (call : SnapperCall)
  (dryrun : bool) : Exc unit :=
  if dryrun then Ok tt
  else if snapper_ok call then Ok tt else Raise SnapperExecutionException.

(** [SnapperSnapshot.set_backup_status]: the in-memory set is updated, then
    written to snapper (which may raise). *)
Definition set_backup_status (snapper_ok : SnapperCall -> bool) (s : SnapperSnapshot)
  (repo : string) (status dryrun : bool) : Exc unit * SnapperSnapshot :=
  let b := if status then str_set_add repo (_is_backed_up s)
           else str_set_discard repo (_is_backed_up s) in
  let userdata := serialize_is_backed_up b in
  let legacy_userdata :=
    if String.eqb repo LEGACY_REPO_NAME
    then (if status then "," ++ SNAPBORG_BACKUP_KEY_LEGACY ++ "=" ++ "true" else EmptyString)
    else EmptyString in
  (run_snapper snapper_ok
     (ModifyUserdata (number s) (SNAPBORG_BACKUP_KEY ++ "=" ++ userdata ++ legacy_userdata))
     dryrun,
   with_backed_up s b).

(** [prevent_cleanup] and [restore_cleanup_state] of one snapshot. *)
Definition prevent_cleanup_call (s : SnapperSnapshot) : SnapperCall :=
  ModifyCleanup (number s) EmptyString.
Definition restore_cleanup_call (s : SnapperSnapshot) : SnapperCall :=
  ModifyCleanup (number s) (_cleanup s).

(** A [for] loop of snapper invocations, left by the first exception. *)
Fixpoint run_all (snapper_ok : SnapperCall -> bool) (dryrun : bool)
  (calls : list SnapperCall) : Exc unit :=
  match calls with
  | [] => Ok tt
  | c :: rest => let! _ := run_snapper snapper_ok c dryrun in run_all snapper_ok dryrun rest
  end.

End Snapper.

(** ** [snapborg/commands/snapborg.py]: backing up to one repository *)
Module Commands.
Import PyDatetime Config Results Snapper.
Local Open Scope string_scope.

(** Modelled from the spec: the borg return code for "archive already
    exists" ([BORG_RETURNCODE_ARCHIVE_EXISTS] of the current [borg.py]),
    borg's modern exit code for [Archive.AlreadyExists]. *)
Definition BORG_RETURNCODE_ARCHIVE_EXISTS : Z := 30.

(** Modelled from the spec: a borg invocation with return code [rc]
    succeeds on 0, on 1 and on the warning range 100..127, and raises
    [BorgExecutionException(rc)] otherwise. *)
Definition borg_call (rc : Z) : Exc unit :=
  if Z.eqb rc 0 || Z.eqb rc 1 || (Z.leb 100 rc && Z.leb rc 127) then Ok tt
  else Raise (BorgExecutionException rc).

(** The external collaborators of one run: which snapper invocations
    succeed, the return codes of [borg delete] and [borg create] for the
    archive of each snapshot number, and the values [datetime.now()]
    returns in [get_retained_snapshots] and in the [fail_after] check. *)
Record World : Type := mkWorld {
  snapper_ok : SnapperCall -> bool;
  borg_delete_rc : Z -> Z;
  borg_create_rc : Z -> Z;
  now_select : datetime;
  now_policy : datetime
}.

(** A state and exception monad: the state survives an exception, as the
    mutated Python objects do. *)
Definition St (S X : Type) : Type := S -> Exc X * S.

Definition st_ret {S X} (x : X) : St S X := fun s => (Ok x, s).
Definition st_bind {S X Y} (m : St S X) (f : X -> St S Y) : St S Y :=
  fun s => match m s with
           | (Ok x, s') => f x s'
           | (Raise e, s') => (Raise e, s')
           end.

Notation "x <- m ;; k" := (st_bind m (fun x => k))
  (at level 61, m at next level, right associativity).

Definition str_of_error (e : PyError) : string :=
  match e with
  | BorgExecutionException rc =>
      "Error during borg execution, borg return code: " ++ PyStr.str_of_Z rc
  | SnapperExecutionException => "Error occured during snapper execution"
  | OverflowError => "date value out of range"
  | ValueError => "year 0 is out of range"
  end.

Definition set_status (w : World) (repo : string) (status dryrun : bool)
  : St SnapperSnapshot unit :=
  fun s => set_backup_status (snapper_ok w) s repo status dryrun.

Definition borg_on (rc : Z -> Z) : St SnapperSnapshot unit :=
  fun s => (borg_call (rc (number s)), s).

(** The [try] block of [backup_snapshot]. *)
Definition backup_snapshot_try (w : World) (repo : RepoConfig) (recreate dryrun : bool)
  : St SnapperSnapshot CommandResult :=
  _ <- (if recreate
        then _ <- borg_on (borg_delete_rc w) ;; set_status w (name repo) false dryrun
        else st_ret tt) ;;
  _ <- borg_on (borg_create_rc w) ;;
  _ <- set_status w (name repo) true dryrun ;;
  (fun s => (Ok (ok (Some ("Successfully backed up snapshot number "
                            ++ PyStr.str_of_Z (number s))) []), s)).

(** [backup_snapshot(snapper_config, borg_repo, snapshot, recreate, dryrun)]
    with its [except] clauses. *)
Definition backup_snapshot (w : World) (repo : RepoConfig) (recreate dryrun : bool)
  : St SnapperSnapshot CommandResult :=
  fun s0 =>
    match backup_snapshot_try w repo recreate dryrun s0 with
    | (Ok r, s) => (Ok r, s)
    | (Raise (BorgExecutionException rc), s) =>
        if Z.eqb rc BORG_RETURNCODE_ARCHIVE_EXISTS && negb (is_old_config repo)
           && is_backed_up s LEGACY_REPO_NAME
        then
          (_ <- set_status w (name repo) true false ;;
           _ <- set_status w LEGACY_REPO_NAME false false ;;
           (fun s => (Ok (warn (Some ("Snapshot " ++ PyStr.str_of_Z (number s)
                                      ++ " had already been backed up!")) []), s))) s
        else
          (Ok (err (Some ("Borg reported an error backing up snapshot number "
                          ++ PyStr.str_of_Z (number s) ++ ": "
                          ++ str_of_error (BorgExecutionException rc))) []), s)
    | (Raise SnapperExecutionException, s) =>
        (Ok (err (Some ("Borg reported an error backing up snapshot number "
                        ++ PyStr.str_of_Z (number s) ++ ": "
                        ++ str_of_error SnapperExecutionException)) []), s)
    | (Raise e, s) => (Raise e, s)
    end.

(** The snapshot objects of the snapper config (cached by [get_snapshots]);
    a snapshot object is designated by its position. *)
Definition Store : Type := list SnapperSnapshot.

Definition no_snapshot : SnapperSnapshot := mkSnapperSnapshot 0 0 EmptyString [].

Definition store_get (st : Store) (i : nat) : SnapperSnapshot := nth i st no_snapshot.

Fixpoint store_set (st : Store) (i : nat) (s : SnapperSnapshot) : Store :=
  match st, i with
  | [], _ => []
  | _ :: rest, O => s :: rest
  | x :: rest, S j => x :: store_set rest j s
  end.

(** Running a method on the snapshot object at position [i]. *)
Definition on_snapshot {X} (i : nat) (m : St SnapperSnapshot X) : St Store X :=
  fun st => let '(r, s') := m (store_get st i) in (r, store_set st i s').

(** The candidates: the retained snapshots not yet backed up to the
    repository (all of them under [recreate]). *)
Definition select_candidates (w : World) (repo : RepoConfig) (recreate : bool)
  (st : Store) : Exc (list nat) :=
  let rc := retention repo in
  let! retained :=
    Retention.get_retained_snapshots Nat.eq_dec (now_select w) (seq 0 (List.length st))
      (fun i => date (store_get st i))
      (keep_last rc) (keep_minutely rc) (keep_hourly rc) (keep_daily rc)
      (keep_weekly rc) (keep_monthly rc) (keep_yearly rc) in
  Ok (filter (fun i => negb (is_backed_up (store_get st i) (name repo)) || recreate) retained).

(** The list comprehension of [backup_snapshot] over the candidates. *)
Fixpoint backup_all (w : World) (repo : RepoConfig) (recreate dryrun : bool)
  (cands : list nat) : St Store (list CommandResult) :=
  match cands with
  | [] => st_ret []
  | i :: rest =>
      r <- on_snapshot i (backup_snapshot w repo recreate dryrun) ;;
      rs <- backup_all w repo recreate dryrun rest ;;
      st_ret (r :: rs)
  end.

(** The [with snapper_config.prevent_cleanup(...)] block: the value of the
    local [snapshot_results] after it, the exception leaving it (one raised
    while restoring replaces the body's) and the snapshot objects. *)
Definition with_prevent_cleanup (w : World) (repo : RepoConfig) (recreate dryrun : bool)
  (cands : list nat) (st : Store) : list CommandResult * option PyError * Store :=
  match run_all (snapper_ok w) dryrun (map (fun i => prevent_cleanup_call (store_get st i)) cands) with
  | Raise e => ([], Some e, st)
  | Ok _ =>
      let '(body, st') := backup_all w repo recreate dryrun cands st in
      let snapshot_results := match body with Ok rs => rs | Raise _ => [] end in
      let body_exc := match body with Ok _ => None | Raise e => Some e end in
      match run_all (snapper_ok w) dryrun
              (map (fun i => restore_cleanup_call (store_get st' i)) cands) with
      | Raise e => (snapshot_results, Some e, st')
      | Ok _ => (snapshot_results, body_exc, st')
      end
  end.

(** [datetime + timedelta], which raises [OverflowError] out of range. *)
Definition add (x : datetime) (td : timedelta) : Exc datetime :=
  let r := (x + td)%Z in
  if Z.leb 0 r && Z.leb r datetime_max then Ok r else Raise OverflowError.

(** [max(backed_up, key=lambda x: x.date)], raising on an empty list. *)
Definition newest_by_date (l : list SnapperSnapshot) : Exc SnapperSnapshot :=
  match l with
  | [] => Raise ValueError
  | x :: rest =>
      Ok (fold_left (fun m s => if Z.ltb (date m) (date s) then s else m) rest x)
  end.

(** The end of [backup_to_repo]: the repository's fault tolerance. *)
Definition evaluate_policy (w : World) (repo : RepoConfig) (st : Store)
  (snapshot_results : list CommandResult) : Exc CommandResult :=
  let repo_string := name repo ++ " (at " ++ path repo ++ ")" in
  if existsb (fun it => status_eqb (status it) ERR) snapshot_results then
    match fail_after repo with
    | FailAfterBool false =>
        Ok (warn (Some ("Backup to optional repo " ++ repo_string)) snapshot_results)
    | FailAfterBool true =>
        Ok (err (Some ("Backup to mandatory repo " ++ repo_string)) snapshot_results)
    | FailAfterDuration d =>
        let backed_up := filter (fun s => is_backed_up s (name repo)) st in
        if Nat.ltb 0 (List.length st) && Nat.eqb (List.length backed_up) 0 then
          Ok (err (Some "No snapshots have been transferred to the borg repo yet!")
                  snapshot_results)
        else
          let! newest_backed_up := newest_by_date backed_up in
          let! limit := add (date newest_backed_up) d in
          if Z.ltb limit (now_policy w) then
            Ok (err (Some ("Backup to (time limited) optional repo " ++ repo_string
                           ++ ":Newest snapshot transferred to the borg repo is older than allowed as per the 'fail_after' directive"))
                    snapshot_results)
          else
            Ok (warn (Some ("Backup to (time limited) optional repo " ++ repo_string
                            ++ ":Errors occured during backup but the most recent snapshot is newer than the limit allowed as per the 'fail_after' directive!"))
                     snapshot_results)
    end
  else Ok (from_children snapshot_results (Some ("Backup to repo " ++ repo_string)) None).

(** [backup_to_repo(repo, snapper_config, recreate, dryrun)]; [snapshots] is
    the outcome of [snapper_config.get_snapshots()]. *)
Definition backup_to_repo (w : World) (repo : RepoConfig) (recreate dryrun : bool)
  (snapshots : Exc Store) : Exc CommandResult * Store :=
  match snapshots with
  | Raise SnapperExecutionException =>
      (Ok (err (Some "Failed to get snapshots for snapper config") []), [])
  | Raise e => (Raise e, [])
  | Ok [] => (Ok (warn (Some "No snapshots found for snapper config!") []), [])
  | Ok st =>
      match select_candidates w repo recreate st with
      | Raise e => (Raise e, st)
      | Ok [] => (Ok (ok (Some "No new snapshots needed to be backed up!") []), st)
      | Ok cands =>
          match with_prevent_cleanup w repo recreate dryrun cands st with
          | (snapshot_results, Some SnapperExecutionException, st') =>
              (Ok (err (Some "Snapper error during handling of cleanup algorithm")
                       snapshot_results), st')
          | (_, Some e, st') => (Raise e, st')
          | (snapshot_results, None, st') =>
              (evaluate_policy w repo st' snapshot_results, st')
          end
      end
  end.

End Commands.

(** ** Configuration values: the parsed YAML that [util.py] and [borg.py]
    operate on *)
Module PyValue.
Local Open Scope string_scope.

(** The exceptions raised by the configuration and command-line code. *)
Inductive PyExc : Type :=
| TypeError
| KeyError
| AttributeError
| FileNotFoundError
| Exception (msg : string)
| CalledProcessError (returncode : Z)
| InvalidParameterException (msg : string)
| SnapborgBaseException.

Inductive Result (A : Type) : Type :=
| Ret (a : A)
| Throw (e : PyExc).
Arguments Ret {A} a.
Arguments Throw {A} e.

Definition rbind {A B} (m : Result A) (f : A -> Result B) : Result B :=
  match m with
  | Ret a => f a
  | Throw e => Throw e
  end.

(** The values of a YAML configuration: mappings with string keys (a
    Python [dict], as the list of its items), strings, integers, booleans
    and [None]. *)
#[warnings="-register-all"]
Inductive Val : Type :=
| VDict (items : list (string * Val))
| VStr (s : string)
| VInt (z : Z)
| VBool (b : bool)
| VNone.

(** [d.get(k)] on the items of a dict. *)
Fixpoint lookup (l : list (string * Val)) (k : string) : option Val :=
  match l with
  | [] => None
  | (k', v) :: r => if String.eqb k' k then Some v else lookup r k
  end.

(** [k in d] on the items of a dict. *)
Definition mem_key (k : string) (l : list (string * Val)) : bool :=
  existsb (fun kv => String.eqb (fst kv) k) l.

(** [isinstance(v, dict)] *)
Definition is_dict (v : Val) : bool :=
  match v with VDict _ => true | _ => false end.

(** [bool(v)] *)
Definition truthy (v : Val) : bool :=
  match v with
  | VDict l => match l with [] => false | _ => true end
  | VStr s => negb (String.eqb s EmptyString)
  | VInt z => negb (Z.eqb z 0)
  | VBool b => b
  | VNone => false
  end.

(** [v == s] for a string [s]. *)
Definition eq_str (v : Val) (s : string) : bool :=
  match v with VStr s' => String.eqb s' s | _ => false end.

(** [v[k]]: [KeyError] for a missing key; a string or a scalar cannot be
    indexed by a string ([TypeError]). *)
Definition getitem (v : Val) (k : string) : Result Val :=
  match v with
  | VDict l => match lookup l k with Some x => Ret x | None => Throw KeyError end
  | _ => Throw TypeError
  end.

(** [repr] of a character inside a quoted string literal. *)
Definition hex_digit (n : nat) : ascii :=
  if Nat.ltb n 10 then ascii_of_nat (48 + n) else ascii_of_nat (87 + n).

Definition repr_char (quote c : ascii) : string :=
  let n := nat_of_ascii c in
  if Ascii.eqb c quote || Ascii.eqb c "\" then String "\" (String c EmptyString)
  else if Nat.eqb n 9 then "\t"
  else if Nat.eqb n 10 then "\n"
  else if Nat.eqb n 13 then "\r"
  else if Nat.ltb n 32 || Nat.eqb n 127 || (Nat.leb 128 n && Nat.leb n 160) || Nat.eqb n 173
  then String "\" (String "x" (String (hex_digit (n / 16)) (String (hex_digit (n mod 16)) EmptyString)))
  else String c EmptyString.

Fixpoint contains_char (c : ascii) (s : string) : bool :=
  match s with
  | EmptyString => false
  | String c' r => Ascii.eqb c c' || contains_char c r
  end.

(** [repr(s)] of a string of code points below 256: single quotes unless
    the string has a single quote and no double quote. *)
Definition repr_str (s : string) : string :=
  let quote := if contains_char "'" s && negb (contains_char "034" s) then "034"%char else "'"%char in
  let fix body (s : string) : string :=
    match s with
    | EmptyString => EmptyString
    | String c r => repr_char quote c ++ body r
    end in
  String quote (body s ++ String quote EmptyString).

(** [repr(v)] *)
Fixpoint repr (v : Val) : string :=
  match v with
  | VDict l =>
      "{" ++ PyStr.join ", "
               ((fix items (l : list (string * Val)) : list string :=
                   match l with
                   | [] => []
                   | (k, x) :: r => (repr_str k ++ ": " ++ repr x) :: items r
                   end) l) ++ "}"
  | VStr s => repr_str s
  | VInt z => PyStr.str_of_Z z
  | VBool b => if b then "True" else "False"
  | VNone => "None"
  end.

(** [str(v)] *)
Definition py_str (v : Val) : string :=
  match v with VStr s => s | _ => repr v end.

End PyValue.
Import PyValue.

Notation "'let?' x := m 'in' k" := (rbind m (fun x => k))
  (at level 200, x name, m at level 100, k at level 200).

(** ** [snapborg/util.py]: merging configuration dicts *)
Module UtilDict.
Local Open Scope string_scope.

(** [selective_merge(dict(), v)] for a dict [v] (the deep copy made for a
    key only in [delta_obj]). *)
Fixpoint copy_dict (v : Val) : Val :=
  match v with
  | VDict l =>
      VDict ((fix go (l : list (string * Val)) : list (string * Val) :=
                match l with
                | [] => []
                | (k, x) :: r => (k, if is_dict x then copy_dict x else x) :: go r
                end) l)
  | _ => v
  end.

(** [selective_merge(base_obj, delta_obj, restrict_keys)]. The result dict
    lists the keys only in [base_obj], then the common keys, then the keys
    only in [delta_obj] (the order of Python's set iteration is not
    specified; the properties proved below are about lookups only).
    [set(delta_obj)] of an integer, a boolean or [None] raises [TypeError];
    for a non-empty string, [delta_obj[k]] with a string [k] does; an empty
    string has no keys. *)
Fixpoint selective_merge (base_obj delta_obj : Val) (restrict_keys : bool)
  {struct base_obj} : Result Val :=
  match base_obj with
  | VDict bl =>
      match delta_obj with
      | VDict dl =>
          let base_keys_to_copy :=
            if restrict_keys then [] else filter (fun kv => negb (mem_key (fst kv) dl)) bl in
          let common :=
            (fix go (l : list (string * Val)) : Result (list (string * Val)) :=
               match l with
               | [] => Ret []
               | (k, bv) :: r =>
                   match lookup dl k with
                   | Some dv =>
                       let? m := selective_merge bv dv restrict_keys in
                       let? rest := go r in
                       Ret ((k, m) :: rest)
                   | None => go r
                   end
               end) bl in
          let? merged := common in
          let fresh :=
            map (fun kv => (fst kv, if is_dict (snd kv) then copy_dict (snd kv) else snd kv))
                (filter (fun kv => negb (mem_key (fst kv) bl)) dl) in
          Ret (VDict (base_keys_to_copy ++ merged ++ fresh))
      | VStr EmptyString => Ret (VDict (if restrict_keys then [] else bl))
      | _ => Throw TypeError
      end
  | _ => Ret base_obj
  end.

(** [restrict_keys(template, target)] for a dict [template]; [.items()] of
    a non-dict raises [AttributeError]. *)
Definition restrict_keys (template : list (string * Val)) (target : Val) : Result Val :=
  match target with
  | VDict tl => Ret (VDict (filter (fun kv => mem_key (fst kv) template) tl))
  | _ => Throw AttributeError
  end.

End UtilDict.

(** ** [snapborg/borg.py] *)
Module Borg.
Import UtilDict.
Local Open Scope string_scope.

Definition DEFAULT_RETENTION : list (string * Val) :=
  [("keep_last", VInt 1); ("keep_hourly", VInt 0); ("keep_daily", VInt 7);
   ("keep_weekly", VInt 4); ("keep_monthly", VInt 3); ("keep_yearly", VInt 5)].

Definition DEFAULT_REPO_CONFIG : Val :=
  VDict [("storage", VDict [("encryption", VStr "none"); ("compression", VStr "auto,zstd,4")]);
         ("retention", VDict DEFAULT_RETENTION)].

(** The attributes of a [BorgRepo]; [is_interactive] is
    [os.isatty(sys.stdout.fileno())]. *)
Record BorgRepo : Type := mkBorgRepo {
  repopath : Val;
  compression : Val;
  retention : Val;
  encryption : Val;
  passphrase : option string;
  snapper_config : Val;
  is_interactive : bool
}.

(** [any(password.startswith(char) for char in ('~', '/', '.'))] *)
Definition looks_like_path (s : string) : bool :=
  match s with
  | String c _ => Ascii.eqb c "~" || Ascii.eqb c "/" || Ascii.eqb c "."
  | EmptyString => false
  end.

(** [get_password(password)]; [read_file p] is the content of the file
    [os.path.expanduser(p)] or the exception opening it raises
    ([FileNotFoundError] when it does not exist). A non-string has no
    [startswith] ([AttributeError]). *)
Definition get_password (read_file : string -> Result string) (password : Val)
  : Result string :=
  match password with
  | VStr s =>
      if looks_like_path s
      then let? content := read_file s in Ret (PyStr.strip content)
      else Ret s
  | _ => Throw AttributeError
  end.

(** [BorgRepo.create_from_config(config)]. *)
Definition create_from_config (is_interactive : bool) (read_file : string -> Result string)
  (config : Val) : Result BorgRepo :=
  let? repo := getitem config "repo" in
  if negb (truthy repo) then Throw (Exception "Target repository not given!") else
  let? name := getitem config "name" in
  if negb (truthy name) then Throw (Exception "Snapper config name not given!") else
  let borgrepo := repo in
  let snapper_config := name in
  let? config := selective_merge config DEFAULT_REPO_CONFIG false in
  let? storage := getitem config "storage" in
  let? encryption := getitem storage "encryption" in
  let? compression := getitem storage "compression" in
  let? config_retention := getitem config "retention" in
  let? retention := restrict_keys DEFAULT_RETENTION config_retention in
  let? password :=
    if eq_str encryption "none" then Ret None
    else if eq_str encryption "repokey" || eq_str encryption "repokey-blake2" then
      let? pp := getitem storage "encryption_passphrase" in
      let? p := get_password read_file pp in
      Ret (Some p)
    else Throw (Exception "Invalid or unsupported encryption mode given!") in
  Ret (mkBorgRepo borgrepo compression retention encryption password snapper_config
         is_interactive).

(** [name.replace('_', '-')] *)
Fixpoint dashes (s : string) : string :=
  match s with
  | EmptyString => EmptyString
  | String c r => String (if Ascii.eqb c "_" then "-"%char else c) (dashes r)
  end.

(** [d.items()]; a non-dict has no [items] ([AttributeError]). *)
Definition items (v : Val) : Result (list (string * Val)) :=
  match v with VDict l => Ret l | _ => Throw AttributeError end.

(** The argument list [prune] builds: [override] is the argument
    [override_retention_settings] ([None] by default). *)
Definition prune_invocation (r : BorgRepo) (override : Val) : Result (list Val) :=
  let override_retention_settings := if truthy override then override else VDict [] in
  let? retention_settings := selective_merge override_retention_settings (retention r) true in
  let? settings := items retention_settings in
  Ret (app [VStr "prune"; VStr "--list"]
       (app (flat_map (fun kv => [VStr ("--" ++ dashes (fst kv)); VStr (py_str (snd kv))]) settings)
       (app [VStr "--glob-archives"; VStr ("'" ++ py_str (snapper_config r) ++ "-*'")]
            [repopath r]))).

(** The arguments as strings, as [subprocess] requires them. *)
Fixpoint all_str (l : list Val) : option (list string) :=
  match l with
  | [] => Some []
  | VStr s :: r => option_map (cons s) (all_str r)
  | _ :: _ => None
  end.

(** [launch_borg(args, password, print_output, dryrun)]: printing the
    command joins its arguments; [returncode cmd] is borg's exit code for
    [cmd]; 1 only reports warnings, any other non-zero code raises
    [CalledProcessError]. *)
Definition launch_borg (returncode : list string -> Z) (args : list Val)
  (print_output dryrun : bool) : Result unit :=
  let cmd := VStr "borg" :: args in
  let? _ := if print_output
            then match all_str cmd with Some _ => Ret tt | None => Throw TypeError end
            else Ret tt in
  if dryrun then Ret tt
  else match all_str cmd with
       | None => Throw TypeError
       | Some c =>
           let rc := returncode c in
           if Z.eqb rc 0 then Ret tt
           else if Z.eqb rc 1 then Ret tt
           else Throw (CalledProcessError rc)
       end.

(** [BorgRepo.prune(override_retention_settings, dryrun)]. *)
Definition prune (returncode : list string -> Z) (r : BorgRepo) (override : Val) (dryrun : bool)
  : Result unit :=
  let? args := prune_invocation r override in
  launch_borg returncode args (is_interactive r) dryrun.

End Borg.

(** ** [SnapperConfig.prevent_cleanup] with the snapper calls it issues *)
Module SnapperTrace.
Import Snapper.

(** [run_snapper] of a [modify] call and the calls it issues: none under
    [dryrun], where the command is only printed. *)
Definition run_snapper_traced (snapper_ok : SnapperCall -> bool) (call : SnapperCall)
  (dryrun : bool) : Exc unit * list SnapperCall :=
  (run_snapper snapper_ok call dryrun, if dryrun then [] else [call]).

(** A [for] loop of snapper calls, left by the first exception. *)
Fixpoint run_all_traced (snapper_ok : SnapperCall -> bool) (dryrun : bool)
  (calls : list SnapperCall) : Exc unit * list SnapperCall :=
  match calls with
  | [] => (Ok tt, [])
  | c :: rest =>
      let '(r, t) := run_snapper_traced snapper_ok c dryrun in
      match r with
      | Ok _ => let '(r', t') := run_all_traced snapper_ok dryrun rest in (r', t ++ t')
      | Raise e => (Raise e, t)
      end
  end.

(** [with config.prevent_cleanup(snapshots, dryrun): body]. [body] is the
    outcome of the block and the snapper calls it issues; it runs only
    once every snapshot's cleanup is disabled, and the [finally] clause
    restores the cleanup algorithms whatever its outcome. *)
Definition prevent_cleanup {X} (snapper_ok : SnapperCall -> bool) (dryrun : bool)
  (snapshots : list SnapperSnapshot) (body : Exc X * list SnapperCall)
  : Exc X * list SnapperCall :=
  let '(r1, t1) := run_all_traced snapper_ok dryrun (map prevent_cleanup_call snapshots) in
  match r1 with
  | Raise e => (Raise e, t1)
  | Ok _ =>
      let '(rb, tb) := body in
      let '(r2, t2) := run_all_traced snapper_ok dryrun (map restore_cleanup_call snapshots) in
      (match r2 with Raise e => Raise e | Ok _ => rb end, t1 ++ tb ++ t2)
  end.

End SnapperTrace.

(** ** [snapborg/commands/snapborg.py]: selecting configs and the overall
    backup *)
Module Cli.
Import Results.
Local Open Scope string_scope.

Definition dquote : string := String "034" EmptyString.

(** [get_snapper_configs(cfg, config_arg)], for configs named by
    [config_name]. *)
Definition get_snapper_configs {C} (config_name : C -> string) (configs : list C)
  (config_arg : option string) : Result (list C) :=
  match config_arg with
  | Some arg =>
      if String.eqb arg EmptyString then Ret configs
      else
        match filter (fun c => String.eqb (config_name c) arg) configs with
        | [] => Throw (InvalidParameterException ("No such config " ++ dquote ++ arg ++ dquote))
        | cs => Ret cs
        end
  | None => Ret configs
  end.

(** The result [backup_config] returns for the results of [backup_to_repo]
    on the config's repositories. *)
Definition backup_config (config_name : string) (recreate : bool)
  (repo_results : list CommandResult) : CommandResult :=
  from_children repo_results
    (Some ("Backup of snapper config " ++ config_name
           ++ (if recreate then " (recreating archives)" else EmptyString))) None.

(** [backup(snapper_configs, recreate, prune_old_backups, dryrun, ...)]:
    [configs] pairs each config's name with its repositories' results;
    [prune_all] is the outcome of [prune(snapper_configs, dryrun)]. *)
Definition backup (configs : list (string * list CommandResult))
  (recreate prune_old_backups : bool) (prune_all : Result unit) : Result unit :=
  let results :=
    from_children (map (fun c => backup_config (fst c) recreate (snd c)) configs)
      (Some ("Backup of snapper config(s): " ++ PyStr.join ", " (map fst configs))) None in
  if status_eqb (status results) ERR then Throw SnapborgBaseException
  else if prune_old_backups then prune_all
  else Ret tt.

End Cli.

(** * Properties of the retention selection *)
Module RetentionSpec.
Import PyDatetime Retention.

Section Facts.
Variable A : Type.
Variable A_eq_dec : forall a b : A, {a = b} + {a <> b}.

Lemma fold_set_add_acc (l : list (entry A)) acc :
  incl acc (fold_left (fun r it => set_add A_eq_dec (snd it) r) l acc).
Proof.
  revert acc. induction l as [|e l IH]; simpl; intros acc; [apply incl_refl|].
  eapply incl_tran; [apply set_add_incl | apply IH].
Qed.

Lemma fold_set_add_in (l : list (entry A)) acc e :
  In e l -> In (snd e) (fold_left (fun r it => set_add A_eq_dec (snd it) r) l acc).
Proof.
  revert acc. induction l as [|e' l IH]; simpl; intros acc H; [contradiction|].
  destruct H as [H|H]; [subst e'|apply IH; exact H].
  apply fold_set_add_acc. unfold set_add.
  destruct (in_dec A_eq_dec (snd e) acc); [assumption|].
  apply in_or_app; right; left; reflexivity.
Qed.

Lemma StronglySorted_app_rel {X} (R : X -> X -> Prop) l1 l2 :
  StronglySorted R (l1 ++ l2) -> forall x y, In x l1 -> In y l2 -> R x y.
Proof.
  induction l1 as [|h t IH]; simpl; intros Hs x y Hx Hy; [contradiction|].
  inversion Hs as [|? ? Hs' Hall]; subst.
  destruct Hx as [<-|Hx].
  - rewrite Forall_forall in Hall. apply Hall, in_or_app; right; exact Hy.
  - apply IH; assumption.
Qed.

(** The selection with a [keep_last] budget starts from the [keep_last]
    latest entries, and the later tiers only add to it. *)
Lemma get_retained_keep_last now snapshots date_key kl km kh kd kw kmo ky r :
  get_retained_snapshots A_eq_dec now snapshots date_key kl km kh kd kw kmo ky = Ok r ->
  0 < kl ->
  forall e, In e (slice_last kl (sort_entries (map (fun s => (date_key s, s)) snapshots))) ->
  In (snd e) r.
Proof.
  unfold get_retained_snapshots. intros H Hk e He.
  replace (0 <? kl) with true in H by (symmetry; apply Z.ltb_lt; exact Hk).
  apply bind_inv in H as [ws [_ H]].
  apply run_tiers_retained in H. apply H. apply fold_set_add_in. exact He.
Qed.

Lemma In_skipn {X} (x : X) n l : In x (skipn n l) -> In x l.
Proof. intros H. rewrite <- (firstn_skipn n l). apply in_or_app. right. exact H. Qed.

Lemma split_incl {X} (l : list X) p a b :
  Util.split l p = (a, b) -> incl a l /\ incl b l.
Proof.
  revert a b. induction l as [|x l IH]; simpl; intros a b H.
  - inversion H; subst; split; apply incl_refl.
  - destruct (Util.split l p) as [y n] eqn:E. destruct (IH y n eq_refl) as [Hy Hn].
    destruct (p x); inversion H; subst; split;
      try (apply incl_cons; [left; reflexivity|]); apply incl_tl; assumption.
Qed.

Lemma split_none {X} (l : list X) p :
  Forall (fun x => p x = false) l -> Util.split l p = ([], l).
Proof.
  induction 1 as [|x l Hx _ IH]; simpl; [reflexivity|]. rewrite IH, Hx. reflexivity.
Qed.

Lemma py_max_by_date_in (l : list (entry A)) e :
  py_max_by_date l = Some e -> In e l.
Proof.
  unfold py_max_by_date.
  assert (G : forall acc, (forall m, acc = Some m -> In m l) ->
    forall l', incl l' l ->
    forall m, fold_left (fun acc x => match acc with
                                      | None => Some x
                                      | Some m => if fst m <? fst x then Some x else Some m
                                      end) l' acc = Some m -> In m l).
  { intros acc Hacc l'. revert acc Hacc. induction l' as [|x l' IH]; simpl;
      intros acc Hacc Hi m H; [exact (Hacc m H)|].
    refine (IH _ _ (proj2 (incl_cons_inv Hi)) m H). intros m' Hm'.
    destruct acc as [m0|]; [destruct (fst m0 <? fst x)|];
      inversion Hm'; subst; [apply Hi; left; reflexivity | apply Hacc; reflexivity
                            | apply Hi; left; reflexivity]. }
  intros H. apply (G None) with l; [discriminate | apply incl_refl | exact H].
Qed.

Lemma set_add_nodup a s : NoDup s -> NoDup (set_add A_eq_dec a s).
Proof.
  unfold set_add. destruct (in_dec A_eq_dec a s) as [_|Hn]; [auto|].
  intros Hs. apply NoDup_app; [exact Hs | repeat constructor; auto |].
  intros x Hx [<-|[]]. contradiction.
Qed.

Lemma set_add_sub a s (P : A -> Prop) : P a -> Forall P s -> Forall P (set_add A_eq_dec a s).
Proof.
  unfold set_add. destruct (in_dec A_eq_dec a s); [auto|].
  intros Ha Hs. apply Forall_app; split; [exact Hs | constructor; auto].
Qed.

(** The invariant of a tier's loop: the retained items are distinct items
    of [snapshots], and so are the items left to scan. *)
Definition tier_inv (snapshots : list A) (s : TierState A) : Prop :=
  NoDup (retained s) /\ Forall (fun a => In a snapshots) (retained s)
  /\ Forall (fun e => In (snd e) snapshots) (snapshots_remaining s).

Lemma tier_step_inv snapshots t s s' :
  tier_inv snapshots s -> tier_step A_eq_dec t s = inl s' -> tier_inv snapshots s'.
Proof.
  unfold tier_step, tier_inv. intros (Hnd & Hret & Hrem).
  destruct (_ && _); [|discriminate].
  destruct (Util.split _ _) as [c rem] eqn:Es. apply split_incl in Es as [Hc Hr].
  rewrite Forall_forall in Hrem.
  destruct (py_max_by_date c) as [e|] eqn:Em;
  destruct (prev_date_fn t (int_start s)); try discriminate;
  intros H; inversion H; subst; simpl; (split; [|split]);
  try (rewrite Forall_forall; intros x Hx; apply Hrem, Hr, Hx); auto.
  - apply set_add_nodup; exact Hnd.
  - apply set_add_sub; [|exact Hret]. apply Hrem, Hc, py_max_by_date_in, Em.
Qed.

Lemma tier_loop_inv snapshots t s r :
  tier_inv snapshots s -> tier_loop A_eq_dec t s = Ok r ->
  NoDup r /\ Forall (fun a => In a snapshots) r.
Proof.
  unfold tier_loop. revert r.
  apply (tier_loop_acc_elim A A_eq_dec (fun s res => forall r, tier_inv snapshots s -> res = Ok r ->
           NoDup r /\ Forall (fun a => In a snapshots) r)).
  - intros s0 r0 H r Hi ->. apply tier_step_done in H as [H|[e H]]; [|discriminate].
    inversion H; subst. destruct Hi as (? & ? & _). auto.
  - intros s0 s' r0 H IH r Hi Hr. apply (IH r); [eapply tier_step_inv; eauto | exact Hr].
Qed.

Lemma run_tiers_inv snapshots now wd tds ret r :
  Forall (fun e => In (snd e) snapshots) wd ->
  NoDup ret -> Forall (fun a => In a snapshots) ret ->
  run_tiers A_eq_dec now wd tds ret = Ok r ->
  NoDup r /\ Forall (fun a => In a snapshots) r.
Proof.
  intros Hwd. revert ret. induction tds as [|[[nk t] fd] rest IH]; simpl; intros ret Hnd Hret H.
  - inversion H; subst; auto.
  - apply bind_inv in H as [ret' [E H]].
    apply tier_loop_inv with (snapshots := snapshots) in E as [Hnd' Hret'];
      [|repeat split; assumption].
    apply IH with ret'; assumption.
Qed.

Lemma fold_set_add_inv snapshots (l : list (entry A)) acc :
  Forall (fun e => In (snd e) snapshots) l ->
  NoDup acc -> Forall (fun a => In a snapshots) acc ->
  let r := fold_left (fun r it => set_add A_eq_dec (snd it) r) l acc in
  NoDup r /\ Forall (fun a => In a snapshots) r.
Proof.
  intros Hl. revert acc. induction Hl as [|e l He _ IH]; simpl; intros acc Hnd Hacc; [auto|].
  apply IH; [apply set_add_nodup; exact Hnd | apply set_add_sub; assumption].
Qed.

(** The result of the selection lists distinct items of its input. *)
Lemma get_retained_sub now snapshots date_key kl km kh kd kw kmo ky r :
  get_retained_snapshots A_eq_dec now snapshots date_key kl km kh kd kw kmo ky = Ok r ->
  NoDup r /\ incl r snapshots.
Proof.
  unfold get_retained_snapshots. intros H.
  apply bind_inv in H as [ws [_ H]].
  assert (Hwd : Forall (fun e => In (snd e) snapshots)
                  (sort_entries (map (fun s => (date_key s, s)) snapshots))).
  { eapply Permutation_Forall; [symmetry; apply sort_entries_perm|].
    rewrite Forall_map. apply Forall_forall. auto. }
  assert (Hret : forall tds ret, NoDup ret -> Forall (fun a => In a snapshots) ret ->
            run_tiers A_eq_dec now (sort_entries (map (fun s => (date_key s, s)) snapshots))
              tds ret = Ok r -> NoDup r /\ incl r snapshots).
  { intros tds ret Hn Hf Hr. apply (run_tiers_inv snapshots) in Hr as [Hnd Hr']; auto.
    split; [exact Hnd|]. intros x Hx. rewrite Forall_forall in Hr'. auto. }
  assert (Hslice : Forall (fun e => In (snd e) snapshots)
            (slice_last kl (sort_entries (map (fun s => (date_key s, s)) snapshots)))).
  { rewrite Forall_forall in *. intros e He. apply Hwd.
    unfold slice_last in He. eapply In_skipn; exact He. }
  destruct (fold_set_add_inv snapshots _ [] Hslice ltac:(constructor) ltac:(constructor)) as [Hn Hf].
  destruct (0 <? kl); [exact (Hret _ _ Hn Hf H) | exact (Hret _ _ ltac:(constructor) ltac:(constructor) H)].
Qed.

(** An iteration over items all dated at or after the end of the searched
    interval selects nothing and keeps all of them. *)
Lemma tier_step_future t s :
  0 < nr_keep s -> snapshots_remaining s <> [] ->
  Forall (fun e => int_end s <= fst e) (snapshots_remaining s) ->
  tier_step A_eq_dec t s =
    match prev_date_fn t (int_start s) with
    | Ok p => inl (mkTierState (nr_keep s) p (int_start s) (snapshots_remaining s) (retained s))
    | Raise e => inr (Raise e)
    end.
Proof.
  intros Hk Hne Hf. unfold tier_step.
  rewrite (proj2 (Z.ltb_lt _ _) Hk).
  rewrite split_none.
  - destruct (snapshots_remaining s); [congruence|]. reflexivity.
  - eapply Forall_impl; [|exact Hf]. intros e He. cbv beta.
    apply andb_false_iff. right. apply Z.ltb_ge. exact He.
Qed.

(** A tier whose budget is not spent and whose remaining items all lie at or
    after the searched interval never stops normally: it leaves the loop
    only by an exception. *)
Lemma tier_loop_future t s :
  0 < nr_keep s -> int_start s <= int_end s -> snapshots_remaining s <> [] ->
  Forall (fun e => int_end s <= fst e) (snapshots_remaining s) ->
  exists e, tier_loop A_eq_dec t s = Raise e.
Proof.
  unfold tier_loop.
  apply (tier_loop_acc_elim A A_eq_dec (fun s res =>
           0 < nr_keep s -> int_start s <= int_end s -> snapshots_remaining s <> [] ->
           Forall (fun e => int_end s <= fst e) (snapshots_remaining s) ->
           exists e, res = Raise e)).
  - intros s0 r H Hk Hle Hne Hf. rewrite tier_step_future in H by assumption.
    destruct (prev_date_fn t (int_start s0)); inversion H; subst; eauto.
  - intros s0 s' r H IH Hk Hle Hne Hf. rewrite tier_step_future in H by assumption.
    destruct (prev_date_fn t (int_start s0)) as [p|] eqn:E; inversion H; subst.
    apply prev_date_fn_lt in E.
    apply IH; simpl; auto; [lia|].
    eapply Forall_impl; [|exact Hf]. intros e He. eapply Z.le_trans; [exact Hle | exact He].
Qed.

End Facts.

(** The date of an item of the example: the day [i] of January 2024. *)
Definition jan2024 (i : Z) : datetime := of_ymd 2024 1 i.

(** Two items: item 1 dated 2024-01-07T00:00, item 2 dated
    2024-01-08T12:00. *)
Definition two_items_date (i : Z) : datetime :=
  if i =? 1 then of_ymd 2024 1 7 else of_ymd 2024 1 8 + hours 12.

(** C1: evaluated at [now] = 2024-01-08T00:00 over seven items dated
    2024-01-01 .. 2024-01-07 (item [i] dated January [i]), with
    [keep_daily = 3] and every other [keep_*] 0, the selection is exactly
    the items of January 5, 6 and 7, each once. *)
Theorem keep_daily_example :
  exists r,
    get_retained_snapshots Z.eq_dec (of_ymd 2024 1 8) [1; 2; 3; 4; 5; 6; 7] jan2024
      0 0 0 3 0 0 0 = Ok r
    /\ NoDup r /\ (forall x, In x r <-> In x [5; 6; 7]).
Proof.
  exists [7; 6; 5]. split; [vm_compute; reflexivity|]. split.
  - repeat constructor; simpl; intuition lia.
  - intros x; simpl; intuition.
Qed.

(** C2: with [keep_last = k], [0 < k <= n] for [n] items, the items sorted
    ascending by date split into the older ones and the [k] latest ones
    (every older item dated no later than every latest one), and each of
    the [k] latest items is in the returned set, whatever the other
    [keep_*] counts. *)
Theorem keep_last_latest {A} (A_eq_dec : forall a b : A, {a = b} + {a <> b})
  now (snapshots : list A) date_key k km kh kd kw kmo ky r :
  0 < k -> (Z.to_nat k <= List.length snapshots)%nat ->
  get_retained_snapshots A_eq_dec now snapshots date_key k km kh kd kw kmo ky = Ok r ->
  let with_date := sort_entries (map (fun s => (date_key s, s)) snapshots) in
  exists older latest,
    with_date = older ++ latest
    /\ Permutation with_date (map (fun s => (date_key s, s)) snapshots)
    /\ List.length latest = Z.to_nat k
    /\ (forall e1 e2, In e1 older -> In e2 latest -> fst e1 <= fst e2)
    /\ (forall e, In e latest -> In (snd e) r).
Proof.
  intros Hk Hn H with_date.
  pose proof (sort_entries_perm A (map (fun s => (date_key s, s)) snapshots)) as Hp.
  pose proof (Permutation_length Hp) as Hlen. rewrite length_map in Hlen.
  exists (firstn (List.length with_date - Z.to_nat k) with_date),
         (slice_last k with_date).
  unfold slice_last. split; [symmetry; apply firstn_skipn|]. split; [exact Hp|]. split.
  - rewrite length_skipn. subst with_date. rewrite Hlen. lia.
  - split.
    + apply (StronglySorted_app_rel (date_le A)).
      rewrite firstn_skipn. apply sort_entries_sorted.
    + intros e He. eapply get_retained_keep_last; eauto.
Qed.

(** C3: with every [keep_*] count 0 the selection is empty for every input
    list, and for the empty input list it is empty for every policy
    ([now] being a valid datetime, as [datetime.now()] returns). *)
Theorem all_zero_or_no_items_empty {A} (A_eq_dec : forall a b : A, {a = b} + {a <> b}) now :
  valid_datetime now ->
  (forall (snapshots : list A) date_key,
     get_retained_snapshots A_eq_dec now snapshots date_key 0 0 0 0 0 0 0 = Ok [])
  /\ (forall date_key kl km kh kd kw kmo ky,
     get_retained_snapshots A_eq_dec now [] date_key kl km kh kd kw kmo ky = Ok []).
Proof.
  intros Hv. destruct (week_start_ok now Hv) as [w Hw].
  split; intros; unfold get_retained_snapshots; rewrite Hw; cbn [bind].
  - apply run_tiers_idle. repeat constructor; lia.
  - replace (fold_left _ _ _) with (@nil A) by (simpl; reflexivity).
    destruct (0 <? kl); apply run_tiers_idle; repeat constructor; right; reflexivity.
Qed.

(** Witness of C2: three items of January 1, 2 and 3, [keep_last = 2]. *)
Lemma keep_last_latest_witness :
  0 < 2 /\ (Z.to_nat 2 <= List.length [1; 2; 3])%nat
  /\ get_retained_snapshots Z.eq_dec (of_ymd 2024 1 8) [1; 2; 3] jan2024 2 0 0 0 0 0 0
     = Ok [2; 3]
  /\ let with_date := sort_entries (map (fun s => (jan2024 s, s)) [1; 2; 3]) in
     exists older latest,
       with_date = older ++ latest
       /\ Permutation with_date (map (fun s => (jan2024 s, s)) [1; 2; 3])
       /\ List.length latest = Z.to_nat 2
       /\ (forall e1 e2, In e1 older -> In e2 latest -> fst e1 <= fst e2)
       /\ (forall e, In e latest -> In (snd e) [2; 3]).
Proof.
  assert (H : get_retained_snapshots Z.eq_dec (of_ymd 2024 1 8) [1; 2; 3] jan2024 2 0 0 0 0 0 0
              = Ok [2; 3]) by (vm_compute; reflexivity).
  split; [lia|]. split; [simpl; lia|]. split; [exact H|].
  exact (keep_last_latest Z.eq_dec (of_ymd 2024 1 8) [1; 2; 3] jan2024 2 0 0 0 0 0 0 [2; 3]
           ltac:(lia) ltac:(simpl; lia) H).
Defined.

(** Witness of C3, at [now] = 2024-01-08T00:00 with integer items. *)
Lemma all_zero_or_no_items_empty_witness :
  valid_datetime (of_ymd 2024 1 8)
  /\ (forall (snapshots : list Z) date_key,
        get_retained_snapshots Z.eq_dec (of_ymd 2024 1 8) snapshots date_key 0 0 0 0 0 0 0 = Ok [])
  /\ (forall date_key kl km kh kd kw kmo ky,
        get_retained_snapshots Z.eq_dec (of_ymd 2024 1 8) [] date_key kl km kh kd kw kmo ky = Ok []).
Proof.
  assert (Hv : valid_datetime (of_ymd 2024 1 8))
    by (unfold valid_datetime; vm_compute; split; discriminate).
  split; [exact Hv|]. exact (all_zero_or_no_items_empty Z.eq_dec (of_ymd 2024 1 8) Hv).
Defined.

(** C4: the tier loops do not stop when no item is left below the searched
    interval. At [now] = 2024-01-08T00:00, with one item dated 2024-01-09
    (after [now]), [keep_last = 1] and [keep_yearly = 1], the yearly tier
    never selects the item and scans back year by year until
    [datetime(0, 1, 1)] raises [ValueError]: no set is returned. *)
Theorem future_item_raises :
  get_retained_snapshots Z.eq_dec (of_ymd 2024 1 8) [9] jan2024 1 0 0 0 0 0 1 = Raise ValueError.
Proof. vm_compute. reflexivity. Qed.

(** C5, counterexample: the selection reads the clock. With item 1 dated
    2024-01-07T00:00, item 2 dated 2024-01-08T12:00 and [keep_daily = 1],
    the same call returns [{1}] when [datetime.now()] is
    2024-01-08T10:00 and [{2}] when it is 2024-01-09T00:00. *)
Lemma selection_depends_on_clock :
  get_retained_snapshots Z.eq_dec (of_ymd 2024 1 8 + hours 10) [1; 2] two_items_date
    0 0 0 1 0 0 0 = Ok [1]
  /\ get_retained_snapshots Z.eq_dec (of_ymd 2024 1 9) [1; 2] two_items_date
    0 0 0 1 0 0 0 = Ok [2].
Proof. split; vm_compute; reflexivity. Qed.

(** C5, amended: [get_retained_snapshots] is a function of its arguments
    and of the clock reading [now]: two calls with equal items, date
    accessor, [keep_*] counts and equal clock readings return equal
    results, and a returned set consists of distinct items of the input
    list (which the call leaves as it is). *)
Theorem selection_deterministic_given_clock {A} (A_eq_dec : forall a b : A, {a = b} + {a <> b})
  now1 now2 (snapshots : list A) date_key kl km kh kd kw kmo ky :
  now1 = now2 ->
  get_retained_snapshots A_eq_dec now1 snapshots date_key kl km kh kd kw kmo ky
    = get_retained_snapshots A_eq_dec now2 snapshots date_key kl km kh kd kw kmo ky
  /\ (forall r, get_retained_snapshots A_eq_dec now1 snapshots date_key kl km kh kd kw kmo ky
                = Ok r -> NoDup r /\ incl r snapshots).
Proof.
  intros <-. split; [reflexivity|]. intros r. apply get_retained_sub.
Qed.

(** Witness of C5 (amended), on the input of C1. *)
Lemma selection_deterministic_given_clock_witness :
  of_ymd 2024 1 8 = of_ymd 2024 1 8
  /\ get_retained_snapshots Z.eq_dec (of_ymd 2024 1 8) [1; 2; 3; 4; 5; 6; 7] jan2024 0 0 0 3 0 0 0
     = get_retained_snapshots Z.eq_dec (of_ymd 2024 1 8) [1; 2; 3; 4; 5; 6; 7] jan2024 0 0 0 3 0 0 0
  /\ (forall r, get_retained_snapshots Z.eq_dec (of_ymd 2024 1 8) [1; 2; 3; 4; 5; 6; 7] jan2024
                  0 0 0 3 0 0 0 = Ok r -> NoDup r /\ incl r [1; 2; 3; 4; 5; 6; 7]).
Proof.
  split; [reflexivity|].
  exact (selection_deterministic_given_clock Z.eq_dec (of_ymd 2024 1 8) (of_ymd 2024 1 8)
           [1; 2; 3; 4; 5; 6; 7] jan2024 0 0 0 3 0 0 0 eq_refl).
Defined.

End RetentionSpec.

(** * Properties of the result tree *)
Module ResultsSpec.
Import Results.

Lemma forallb_OK ch :
  forallb (fun it => status_eqb (status it) OK) ch = true <->
  Forall (fun c => status c = OK) ch.
Proof.
  rewrite forallb_forall, Forall_forall.
  split; intros H x Hx; apply status_eqb_eq; apply H; exact Hx.
Qed.

Lemma existsb_ERR ch :
  existsb (fun it => status_eqb (status it) ERR) ch = true <->
  Exists (fun c => status c = ERR) ch.
Proof.
  rewrite existsb_exists, Exists_exists.
  split; intros [x [Hx H]]; exists x; split; try exact Hx; apply status_eqb_eq; exact H.
Qed.

Lemma Forall_OK_not_ERR (ch : list CommandResult) :
  Forall (fun c => status c = OK) ch -> ~ Exists (fun c => status c = ERR) ch.
Proof.
  rewrite Forall_forall, Exists_exists. intros H [x [Hx He]].
  rewrite (H x Hx) in He. discriminate.
Qed.

(** C9: the status of a node whose status was not set is derived from its
    children: OK iff all of them are OK, ERR iff one of them is ERR, and
    WARN otherwise. *)
Theorem derived_status r :
  _status r = None ->
  (status r = OK <-> Forall (fun c => status c = OK) (children r))
  /\ (status r = ERR <-> Exists (fun c => status c = ERR) (children r))
  /\ (status r = WARN <-> ~ Forall (fun c => status c = OK) (children r)
                          /\ ~ Exists (fun c => status c = ERR) (children r)).
Proof.
  destruct r as [m ch st t]. simpl. intros ->.
  pose proof (forallb_OK ch) as HF. pose proof (existsb_ERR ch) as HE.
  pose proof (Forall_OK_not_ERR ch) as HN.
  destruct (forallb _ ch); destruct (existsb _ ch);
    intuition (try discriminate; try congruence).
Qed.

(** Witness of C9: a node without status over one WARN child. *)
Lemma derived_status_witness :
  _status (from_children [warn None []] None None) = None
  /\ (status (from_children [warn None []] None None) = OK <->
        Forall (fun c => status c = OK) (children (from_children [warn None []] None None)))
  /\ (status (from_children [warn None []] None None) = ERR <->
        Exists (fun c => status c = ERR) (children (from_children [warn None []] None None)))
  /\ (status (from_children [warn None []] None None) = WARN <->
        ~ Forall (fun c => status c = OK) (children (from_children [warn None []] None None))
        /\ ~ Exists (fun c => status c = ERR) (children (from_children [warn None []] None None))).
Proof.
  split; [reflexivity|]. exact (derived_status (from_children [warn None []] None None) eq_refl).
Defined.

End ResultsSpec.

(** * The persisted tag encoding *)
Module TagSpec.
Import Snapper.
Local Open Scope string_scope.

(** ** The round trip for non-empty sets of plain names *)

(** A character of a plain repository name: not a separator, not a bracket,
    not whitespace. *)
Definition plain_char (c : ascii) : bool :=
  negb (PyStr.mem_char c (";" :: "[" :: "]" :: PyStr.whitespace)%char).

Definition plain_name (n : string) : Prop :=
  Forall (fun c => plain_char c = true) (list_ascii_of_string n).

Lemma list_ascii_of_string_app s1 s2 :
  list_ascii_of_string (s1 ++ s2) = (list_ascii_of_string s1 ++ list_ascii_of_string s2)%list.
Proof. induction s1 as [|c s1 IH]; simpl; [reflexivity|]. rewrite IH. reflexivity. Qed.

Lemma lstrip_keep cs s :
  Forall (fun c => PyStr.mem_char c cs = false) (list_ascii_of_string s) ->
  PyStr.lstrip cs s = s.
Proof.
  destruct s as [|c s]; simpl; [reflexivity|]. intros H. inversion H as [|? ? Hc _]; subst.
  rewrite Hc. reflexivity.
Qed.

Lemma rev_string_list s :
  list_ascii_of_string (PyStr.rev_string s) = rev (list_ascii_of_string s).
Proof. unfold PyStr.rev_string. apply list_ascii_of_string_of_list_ascii. Qed.

Lemma rev_string_involutive s : PyStr.rev_string (PyStr.rev_string s) = s.
Proof.
  unfold PyStr.rev_string at 1. rewrite rev_string_list, rev_involutive.
  apply string_of_list_ascii_of_string.
Qed.

Lemma rev_string_snoc s c :
  PyStr.rev_string (s ++ String c EmptyString) = String c (PyStr.rev_string s).
Proof.
  unfold PyStr.rev_string. rewrite list_ascii_of_string_app. simpl.
  rewrite rev_app_distr. reflexivity.
Qed.

Lemma rstrip_keep cs s :
  Forall (fun c => PyStr.mem_char c cs = false) (list_ascii_of_string s) ->
  PyStr.rstrip cs s = s.
Proof.
  intros H. unfold PyStr.rstrip. rewrite lstrip_keep; [apply rev_string_involutive|].
  rewrite rev_string_list. apply Forall_rev. exact H.
Qed.

Lemma plain_char_props c :
  plain_char c = true ->
  Ascii.eqb c ";" = false /\ PyStr.mem_char c PyStr.whitespace = false
  /\ PyStr.mem_char c [" "; "["]%char = false /\ PyStr.mem_char c [" "; "]"]%char = false.
Proof.
  unfold plain_char, PyStr.mem_char. cbn [existsb]. rewrite negb_true_iff.
  rewrite !orb_false_iff. intros (H1 & H2 & H3 & H4).
  assert (H5 : Ascii.eqb c " " = false)
    by (unfold PyStr.whitespace in H4; cbn [existsb] in H4;
        rewrite !orb_false_iff in H4; apply H4).
  repeat split; try assumption; cbn [existsb]; rewrite ?H2, ?H3, ?H5; reflexivity.
Qed.

Lemma strip_plain n : plain_name n -> PyStr.strip n = n.
Proof.
  intros H. unfold PyStr.strip.
  assert (Hw : Forall (fun c => PyStr.mem_char c PyStr.whitespace = false) (list_ascii_of_string n))
    by (eapply Forall_impl; [|exact H]; intros c Hc; apply plain_char_props, Hc).
  rewrite lstrip_keep by exact Hw. apply rstrip_keep. exact Hw.
Qed.

Lemma split_nosep n :
  Forall (fun c => Ascii.eqb c ";" = false) (list_ascii_of_string n) ->
  PyStr.split ";" n = [n].
Proof.
  induction n as [|c n IH]; simpl; [reflexivity|]. intros H.
  inversion H as [|? ? Hc Hn]; subst. rewrite Hc, (IH Hn). reflexivity.
Qed.

Lemma split_sep_app n rest :
  Forall (fun c => Ascii.eqb c ";" = false) (list_ascii_of_string n) ->
  PyStr.split ";" (n ++ String ";" rest) = n :: PyStr.split ";" rest.
Proof.
  induction n as [|c n IH]; simpl; intros H; [reflexivity|].
  inversion H as [|? ? Hc Hn]; subst. rewrite Hc, (IH Hn). reflexivity.
Qed.

Lemma split_join S :
  S <> [] -> Forall plain_name S -> PyStr.split ";" (PyStr.join ";" S) = S.
Proof.
  assert (Hsep : forall n, plain_name n ->
            Forall (fun c => Ascii.eqb c ";" = false) (list_ascii_of_string n))
    by (intros n Hn; eapply Forall_impl; [|exact Hn]; intros c Hc; apply plain_char_props, Hc).
  induction S as [|n [|m S] IH]; intros Hne Hp; [contradiction| |].
  - inversion Hp; subst. apply split_nosep, Hsep. assumption.
  - inversion Hp as [|? ? Hn Hr]; subst.
    change (PyStr.join ";" (n :: m :: S)) with (n ++ String ";" (PyStr.join ";" (m :: S))).
    rewrite split_sep_app by (apply Hsep; exact Hn).
    rewrite IH; [reflexivity | discriminate | exact Hr].
Qed.

Lemma join_chars S :
  Forall plain_name S ->
  Forall (fun c => PyStr.mem_char c [" "; "["]%char = false
                   /\ PyStr.mem_char c [" "; "]"]%char = false)
    (list_ascii_of_string (PyStr.join ";" S)).
Proof.
  assert (Hn : forall n, plain_name n ->
            Forall (fun c => PyStr.mem_char c [" "; "["]%char = false
                             /\ PyStr.mem_char c [" "; "]"]%char = false)
              (list_ascii_of_string n))
    by (intros n Hn; eapply Forall_impl; [|exact Hn]; intros c Hc;
        apply plain_char_props in Hc as (_ & _ & ? & ?); auto).
  induction S as [|n [|m S] IH]; intros Hp; [constructor| |].
  - inversion Hp; subst. simpl. apply Hn. assumption.
  - inversion Hp as [|? ? Hn1 Hr]; subst.
    change (PyStr.join ";" (n :: m :: S)) with (n ++ String ";" (PyStr.join ";" (m :: S))).
    rewrite list_ascii_of_string_app. apply Forall_app. split; [apply Hn; exact Hn1|].
    constructor; [split; reflexivity|]. apply IH. exact Hr.
Qed.

Lemma fold_str_set_add S acc :
  Forall plain_name S -> NoDup (acc ++ S)%list ->
  fold_left (fun acc repo => str_set_add (PyStr.strip repo) acc) S acc = (acc ++ S)%list.
Proof.
  revert acc. induction S as [|n S IH]; intros acc Hp Hnd; simpl; [symmetry; apply app_nil_r|].
  inversion Hp as [|? ? Hn Hr]; subst. rewrite strip_plain by exact Hn.
  assert (Hnot : ~ In n acc)
    by (intros Hin; apply (NoDup_remove_2 acc S n Hnd); apply in_or_app; left; exact Hin).
  unfold str_set_add.
  replace (existsb (String.eqb n) acc) with false.
  - rewrite IH; [rewrite <- app_assoc; reflexivity | exact Hr | rewrite <- app_assoc; exact Hnd].
  - symmetry. apply not_true_iff_false. intros He. apply existsb_exists in He as [x [Hx Hx']].
    apply String.eqb_eq in Hx'. subst x. contradiction.
Qed.

(** Every non-empty set of plain names survives the tag encoding. *)
Lemma tag_roundtrip_nonempty S :
  S <> [] -> NoDup S -> Forall plain_name S ->
  parse_is_backed_up (Some [(SNAPBORG_BACKUP_KEY, serialize_is_backed_up S)]) = S.
Proof.
  intros Hne Hnd Hp. unfold parse_is_backed_up, serialize_is_backed_up.
  pose proof (join_chars S Hp) as Hc.
  set (J := PyStr.join ";" S) in *.
  change (dict_get [(SNAPBORG_BACKUP_KEY, "[" ++ J ++ "]")] SNAPBORG_BACKUP_KEY_LEGACY) with (@None string).
  change (dict_get [(SNAPBORG_BACKUP_KEY, "[" ++ J ++ "]")] SNAPBORG_BACKUP_KEY)
    with (Some ("[" ++ J ++ "]")).
  change ("[" ++ J ++ "]") with (String "[" (J ++ String "]" EmptyString)).
  cbv beta iota zeta. change (String.eqb (String "[" _) EmptyString) with false.
  cbv iota.
  change (PyStr.lstrip [" "; "["]%char (String "[" (J ++ String "]" EmptyString)))
    with (PyStr.lstrip [" "; "["]%char (J ++ String "]" EmptyString)).
  rewrite lstrip_keep.
  - unfold PyStr.rstrip. rewrite rev_string_snoc.
    change (PyStr.lstrip [" "; "]"]%char (String "]" (PyStr.rev_string J)))
      with (PyStr.lstrip [" "; "]"]%char (PyStr.rev_string J)).
    rewrite lstrip_keep.
    + rewrite rev_string_involutive. unfold J. rewrite split_join by assumption.
      apply fold_str_set_add; assumption.
    + rewrite rev_string_list. apply Forall_rev.
      eapply Forall_impl; [|exact Hc]. intros c [_ H]; exact H.
  - rewrite list_ascii_of_string_app. apply Forall_app. split.
    + eapply Forall_impl; [|exact Hc]. intros c [H _]; exact H.
    + constructor; [reflexivity | constructor].
Qed.

(** C10: the round trip fails for the empty set. Discarding the only
    repository of a snapshot (as [backup_snapshot] does under [recreate])
    leaves the empty set, written as the tag string "[]"; parsed back as
    [SnapperSnapshot.__init__] does, it gives the set holding the empty
    name, not the empty set. *)
Theorem empty_tag_set_roundtrip_fails :
  let s := mkSnapperSnapshot 1 (PyDatetime.of_ymd 2024 1 1) "timeline" ["repo"] in
  let '(res, s') := set_backup_status (fun _ => true) s "repo" false false in
  res = Ok tt
  /\ _is_backed_up s' = []
  /\ serialize_is_backed_up (_is_backed_up s') = "[]"
  /\ parse_is_backed_up (Some [(SNAPBORG_BACKUP_KEY, serialize_is_backed_up (_is_backed_up s'))])
     = [EmptyString].
Proof. vm_compute. repeat split. Qed.

End TagSpec.

(** * Backing up to a repository *)
Module BackupSpec.
Import PyDatetime Config Results Snapper Commands.
Local Open Scope string_scope.

(** A new-style repository keeping the last snapshot, with the given
    [fail_after]. *)
Definition example_repo (fa : FailAfter) : RepoConfig :=
  mkRepoConfig "offsite" "/srv/borg" false (mkRetentionConfig 1 0 0 0 0 0 0) fa.

(** Snapshot number 1, taken 2024-01-01, with the given backup tags. *)
Definition example_snapshot (tags : list string) : SnapperSnapshot :=
  mkSnapperSnapshot 1 (of_ymd 2024 1 1) "timeline" tags.

(** A run on 2024-01-08 where snapper answers as [ok] and [borg create]
    returns [create_rc]. *)
Definition example_world (ok : SnapperCall -> bool) (create_rc : Z) : World :=
  mkWorld ok (fun _ => 0) (fun _ => create_rc) (of_ymd 2024 1 8) (of_ymd 2024 1 8).

(** Snapper fails to restore a cleanup algorithm. *)
Definition restore_fails (c : SnapperCall) : bool :=
  match c with
  | ModifyCleanup _ alg => String.eqb alg EmptyString
  | ModifyUserdata _ _ => true
  end.

(** Snapper fails to write userdata. *)
Definition userdata_fails (c : SnapperCall) : bool :=
  match c with
  | ModifyCleanup _ _ => true
  | ModifyUserdata _ _ => false
  end.

(** The snapshot after later [backup_snapshot] calls, for the given
    worlds, repositories and [recreate]/[dryrun] flags. *)
Fixpoint run_backups (steps : list (World * RepoConfig * bool * bool)) (s : SnapperSnapshot)
  : SnapperSnapshot :=
  match steps with
  | [] => s
  | (w, repo, recreate, dryrun) :: rest =>
      run_backups rest (snd (backup_snapshot w repo recreate dryrun s))
  end.

(** ** Runs in which every snapper invocation succeeds *)

Lemma borg_call_cases rc :
  borg_call rc = Ok tt \/ borg_call rc = Raise (BorgExecutionException rc).
Proof. unfold borg_call. destruct (_ || _); auto. Qed.

Lemma run_all_ok ok dryrun calls :
  (forall c, ok c = true) -> run_all ok dryrun calls = Ok tt.
Proof.
  intros H. induction calls as [|c calls IH]; [reflexivity|].
  simpl. unfold run_snapper. destruct dryrun; [exact IH|]. rewrite H. exact IH.
Qed.

Lemma set_backup_status_ok ok s repo status dryrun :
  (forall c, ok c = true) -> fst (set_backup_status ok s repo status dryrun) = Ok tt.
Proof.
  intros H. unfold set_backup_status, run_snapper. destruct dryrun; [reflexivity|].
  cbn [fst]. rewrite H. reflexivity.
Qed.

(** Outcomes of the [try] block that its [except] clauses handle. *)
Definition handled {X} (r : Exc X) : Prop :=
  match r with
  | Ok _ => True
  | Raise (BorgExecutionException _) => True
  | Raise _ => False
  end.

Lemma st_bind_handled {S X Y} (m : St S X) (f : X -> St S Y) s :
  handled (fst (m s)) -> (forall x s', handled (fst (f x s'))) ->
  handled (fst (st_bind m f s)).
Proof.
  unfold st_bind. destruct (m s) as [[x|e] s']; simpl; auto.
Qed.

Lemma backup_snapshot_try_handled w repo recreate dryrun s :
  (forall c, snapper_ok w c = true) ->
  handled (fst (backup_snapshot_try w repo recreate dryrun s)).
Proof.
  intros Hok.
  assert (Hb : forall rc s', handled (fst (borg_on rc s'))).
  { intros rc s'. unfold borg_on. cbn [fst].
    destruct (borg_call_cases (rc (number s'))) as [E|E]; rewrite E; exact I. }
  assert (Hs : forall n st d s', handled (fst (set_status w n st d s'))).
  { intros n st d s'. unfold set_status. rewrite set_backup_status_ok by exact Hok. exact I. }
  unfold backup_snapshot_try.
  apply st_bind_handled; [destruct recreate|].
  - apply st_bind_handled; [apply Hb | intros; apply Hs].
  - exact I.
  - intros _ s1. apply st_bind_handled; [apply Hb|]. intros _ s2.
    apply st_bind_handled; [apply Hs|]. intros. exact I.
Qed.

Lemma backup_snapshot_ok w repo recreate dryrun s :
  (forall c, snapper_ok w c = true) ->
  exists r s', backup_snapshot w repo recreate dryrun s = (Ok r, s').
Proof.
  intros Hok. pose proof (backup_snapshot_try_handled w repo recreate dryrun s Hok) as Hh.
  unfold backup_snapshot.
  destruct (backup_snapshot_try w repo recreate dryrun s) as [[r|[| | |rc]] s1];
    cbn [fst handled] in Hh; try contradiction; eauto.
  destruct (_ && _ && _); [|eauto].
  unfold st_bind, set_status at 1.
  destruct (set_backup_status (snapper_ok w) s1 (name repo) true false) as [r2 s2] eqn:E2.
  pose proof (set_backup_status_ok (snapper_ok w) s1 (name repo) true false Hok) as H2.
  rewrite E2 in H2. cbn [fst] in H2. subst r2.
  unfold set_status.
  destruct (set_backup_status (snapper_ok w) s2 LEGACY_REPO_NAME false false) as [r3 s3] eqn:E3.
  pose proof (set_backup_status_ok (snapper_ok w) s2 LEGACY_REPO_NAME false false Hok) as H3.
  rewrite E3 in H3. cbn [fst] in H3. subst r3. eauto.
Qed.

Lemma backup_all_ok w repo recreate dryrun cands st :
  (forall c, snapper_ok w c = true) ->
  exists rs st', backup_all w repo recreate dryrun cands st = (Ok rs, st').
Proof.
  intros Hok. revert st. induction cands as [|i cands IH]; intros st;
    cbn [backup_all]; [unfold st_ret; eauto|].
  unfold st_bind, on_snapshot.
  destruct (backup_snapshot_ok w repo recreate dryrun (store_get st i) Hok) as [r [s' E]].
  rewrite E.
  destruct (IH (store_set st i s')) as [rs [st' E']]. rewrite E'. do 2 eexists; reflexivity.
Qed.

Lemma with_prevent_cleanup_ok w repo recreate dryrun cands st :
  (forall c, snapper_ok w c = true) ->
  exists rs st', with_prevent_cleanup w repo recreate dryrun cands st = (rs, None, st').
Proof.
  intros Hok. unfold with_prevent_cleanup. rewrite run_all_ok by exact Hok.
  destruct (backup_all_ok w repo recreate dryrun cands st Hok) as [rs [st' E]].
  rewrite E. rewrite run_all_ok by exact Hok. eauto.
Qed.

Lemma evaluate_policy_children w repo st rs r :
  evaluate_policy w repo st rs = Ok r -> children r = rs.
Proof.
  unfold evaluate_policy.
  destruct (existsb _ _); [|intros H; injection H as <-; reflexivity].
  destruct (fail_after repo) as [[|]|d]; try (intros H; injection H as <-; reflexivity).
  destruct (_ && _); [intros H; injection H as <-; reflexivity|].
  destruct (newest_by_date _) as [n|e]; cbn [bind]; [|discriminate].
  destruct (add _ _) as [l|e]; cbn [bind]; [|discriminate].
  destruct (Z.ltb _ _); intros H; injection H as <-; reflexivity.
Qed.

(** When snapper works, a repository's result either has no children (no
    snapshots, or nothing to back up) or comes from the policy evaluation
    over the candidates' results. *)
Lemma backup_to_repo_shape w repo recreate dryrun st r st' :
  (forall c, snapper_ok w c = true) ->
  backup_to_repo w repo recreate dryrun (Ok st) = (Ok r, st') ->
  children r = [] \/ evaluate_policy w repo st' (children r) = Ok r.
Proof.
  intros Hok. unfold backup_to_repo.
  destruct st as [|s0 st0]; [intros H; injection H as <- _; left; reflexivity|].
  destruct (select_candidates w repo recreate (s0 :: st0)) as [[|c cs]|e];
    [intros H; injection H as <- _; left; reflexivity| |discriminate].
  destruct (with_prevent_cleanup_ok w repo recreate dryrun (c :: cs) (s0 :: st0) Hok)
    as [rs [st2 E]].
  rewrite E. intros H. injection H as Hr <-. right.
  rewrite (evaluate_policy_children _ _ _ _ _ Hr). exact Hr.
Qed.

(** Changes of cleanup algorithms succeed when snapper accepts all of them,
    or under [dryrun]. *)
Definition cleanup_changes_ok (w : World) (dryrun : bool) : Prop :=
  dryrun = true \/ forall nr alg, snapper_ok w (ModifyCleanup nr alg) = true.

Lemma run_all_cleanup_ok w dryrun (f : nat -> SnapperSnapshot) (alg : nat -> string) cands :
  cleanup_changes_ok w dryrun ->
  run_all (snapper_ok w) dryrun (map (fun i => ModifyCleanup (number (f i)) (alg i)) cands) = Ok tt.
Proof.
  intros H. induction cands as [|i cands IH]; [reflexivity|].
  cbn [map run_all]. unfold run_snapper.
  destruct H as [->|H]; [exact IH|]. destruct dryrun; [exact IH|]. rewrite H. exact IH.
Qed.

(** When the cleanup algorithms can be changed, the block's results are
    returned, and an exception leaves it only from the body (which then has
    no results). *)
Lemma with_prevent_cleanup_cleanup_ok w repo recreate dryrun cands st :
  cleanup_changes_ok w dryrun ->
  exists body st2,
    with_prevent_cleanup w repo recreate dryrun cands st
    = (match body with Ok rs => rs | Raise _ => [] end,
       match body with Ok _ => None | Raise e => Some e end, st2).
Proof.
  intros H. unfold with_prevent_cleanup, prevent_cleanup_call, restore_cleanup_call.
  rewrite (run_all_cleanup_ok w dryrun (store_get st) (fun _ => EmptyString) cands H).
  destruct (backup_all w repo recreate dryrun cands st) as [body st2].
  rewrite (run_all_cleanup_ok w dryrun (store_get st2) (fun i => _cleanup (store_get st2 i)) cands H).
  exists body, st2. reflexivity.
Qed.

(** When the cleanup algorithms can be changed, a repository's result with
    children comes from the policy evaluation over the candidates'
    results. *)
Lemma backup_to_repo_policy w repo recreate dryrun st r st' :
  cleanup_changes_ok w dryrun ->
  backup_to_repo w repo recreate dryrun (Ok st) = (Ok r, st') ->
  children r = [] \/ evaluate_policy w repo st' (children r) = Ok r.
Proof.
  intros Hc. unfold backup_to_repo.
  destruct st as [|s0 st0]; [intros H; injection H as <- _; left; reflexivity|].
  destruct (select_candidates w repo recreate (s0 :: st0)) as [[|c cs]|e];
    [intros H; injection H as <- _; left; reflexivity| |discriminate].
  destruct (with_prevent_cleanup_cleanup_ok w repo recreate dryrun (c :: cs) (s0 :: st0) Hc)
    as [[rs|e] [st2 E]]; rewrite E.
  - intros H. injection H as Hr <-. right.
    rewrite (evaluate_policy_children _ _ _ _ _ Hr). exact Hr.
  - destruct e; intros H; try discriminate. injection H as <- _. left. reflexivity.
Qed.

(** ** The legacy tag under [backup_snapshot] *)

Definition preserves {X} (P : SnapperSnapshot -> Prop) (m : St SnapperSnapshot X) : Prop :=
  forall s, P s -> P (snd (m s)).

Lemma st_bind_preserves {X Y} P (m : St SnapperSnapshot X) (f : X -> St SnapperSnapshot Y) :
  preserves P m -> (forall x, preserves P (f x)) -> preserves P (st_bind m f).
Proof.
  intros Hm Hf s Hs. unfold st_bind.
  specialize (Hm s Hs). destruct (m s) as [[x|e] s']; [apply Hf|]; exact Hm.
Qed.

Lemma str_set_add_legacy n l :
  n <> LEGACY_REPO_NAME -> existsb (String.eqb LEGACY_REPO_NAME) l = false ->
  existsb (String.eqb LEGACY_REPO_NAME) (str_set_add n l) = false.
Proof.
  intros Hn Hl. unfold str_set_add. destruct (existsb (String.eqb n) l); [exact Hl|].
  rewrite existsb_app, Hl. cbn [existsb orb].
  replace (String.eqb LEGACY_REPO_NAME n) with false
    by (symmetry; apply String.eqb_neq; intros E; apply Hn; symmetry; exact E).
  reflexivity.
Qed.

Lemma str_set_discard_legacy n l :
  existsb (String.eqb LEGACY_REPO_NAME) l = false ->
  existsb (String.eqb LEGACY_REPO_NAME) (str_set_discard n l) = false.
Proof.
  intros Hl. apply not_true_iff_false. intros H.
  apply existsb_exists in H as [x [Hx Hex]].
  unfold str_set_discard in Hx. apply filter_In in Hx as [Hx _].
  assert (existsb (String.eqb LEGACY_REPO_NAME) l = true)
    by (apply existsb_exists; exists x; auto).
  congruence.
Qed.

Lemma set_status_legacy w n status dryrun :
  n <> LEGACY_REPO_NAME ->
  preserves (fun s => is_backed_up s LEGACY_REPO_NAME = false) (set_status w n status dryrun).
Proof.
  intros Hn s Hs. unfold set_status, set_backup_status, is_backed_up in *. cbn [snd].
  unfold with_backed_up. cbn [_is_backed_up].
  destruct status; [apply str_set_add_legacy | apply str_set_discard_legacy]; assumption.
Qed.

(** A backup to a repository not named as the legacy one never brings the
    legacy tag back. *)
Lemma backup_snapshot_legacy w repo recreate dryrun :
  name repo <> LEGACY_REPO_NAME ->
  preserves (fun s => is_backed_up s LEGACY_REPO_NAME = false)
    (backup_snapshot w repo recreate dryrun).
Proof.
  intros Hn s Hs.
  assert (Hb : forall rc, preserves (fun s => is_backed_up s LEGACY_REPO_NAME = false) (borg_on rc))
    by (intros rc s' H; exact H).
  assert (Ht : preserves (fun s => is_backed_up s LEGACY_REPO_NAME = false)
                 (backup_snapshot_try w repo recreate dryrun)).
  { unfold backup_snapshot_try.
    apply st_bind_preserves; [destruct recreate|].
    - apply st_bind_preserves; [apply Hb | intros; apply set_status_legacy; exact Hn].
    - intros s' H; exact H.
    - intros _. apply st_bind_preserves; [apply Hb|]. intros _.
      apply st_bind_preserves; [apply set_status_legacy; exact Hn|].
      intros _ s' H; exact H. }
  specialize (Ht s Hs). unfold backup_snapshot.
  destruct (backup_snapshot_try w repo recreate dryrun s) as [[r|[| | |rc]] s1];
    cbn [snd] in Ht |- *; try exact Ht.
  rewrite Ht, andb_false_r. exact Ht.
Qed.

Lemma run_backups_legacy steps s :
  Forall (fun '(_, repo, _, _) => name repo <> LEGACY_REPO_NAME) steps ->
  is_backed_up s LEGACY_REPO_NAME = false ->
  is_backed_up (run_backups steps s) LEGACY_REPO_NAME = false.
Proof.
  intros Hsteps. revert s. induction Hsteps as [|[[[w repo] recreate] dryrun] rest Hx _ IH];
    intros s Hs; simpl; [exact Hs|].
  apply IH. apply backup_snapshot_legacy; assumption.
Qed.

(** The [try] block on a snapshot tagged with the legacy name only, when
    [borg create] reports an existing archive. *)
Lemma backup_snapshot_try_exists w repo recreate dryrun s :
  name repo <> LEGACY_REPO_NAME ->
  _is_backed_up s = [LEGACY_REPO_NAME] ->
  (recreate = false \/ borg_call (borg_delete_rc w (number s)) = Ok tt) ->
  borg_create_rc w (number s) = BORG_RETURNCODE_ARCHIVE_EXISTS ->
  (forall c, snapper_ok w c = true) ->
  exists s1,
    backup_snapshot_try w repo recreate dryrun s
      = (Raise (BorgExecutionException BORG_RETURNCODE_ARCHIVE_EXISTS), s1)
    /\ _is_backed_up s1 = [LEGACY_REPO_NAME] /\ number s1 = number s.
Proof.
  intros Hn Htags Hdel Hc Hok.
  unfold backup_snapshot_try, st_bind, st_ret, borg_on.
  assert (Hr : recreate = false \/ recreate = true /\ borg_call (borg_delete_rc w (number s)) = Ok tt)
    by (destruct recreate; intuition).
  destruct Hr as [-> | [-> Hd]].
  - rewrite Hc. exists s. split; [reflexivity | auto].
  - rewrite Hd. unfold set_status.
    destruct (set_backup_status (snapper_ok w) s (name repo) false dryrun) as [r1 s1] eqn:E1.
    pose proof (set_backup_status_ok (snapper_ok w) s (name repo) false dryrun Hok) as H1.
    rewrite E1 in H1. cbn [fst] in H1. subst r1.
    unfold set_backup_status in E1. injection E1 as _ <-.
    cbn [number with_backed_up]. rewrite Hc. eexists. split; [reflexivity|].
    cbn [_is_backed_up]. rewrite Htags. split; [|reflexivity].
    unfold str_set_discard. cbn [filter].
    replace (String.eqb LEGACY_REPO_NAME (name repo)) with false
      by (symmetry; apply String.eqb_neq; intros E; apply Hn; symmetry; exact E).
    reflexivity.
Qed.

(** C6, counterexample: when snapper fails to write the new tag, the
    exception leaves [backup_snapshot] and the legacy tag stays. *)
Lemma migration_tag_write_fails :
  let '(res, s') := backup_snapshot (example_world userdata_fails BORG_RETURNCODE_ARCHIVE_EXISTS)
                      (example_repo (FailAfterBool false)) false false
                      (example_snapshot [LEGACY_REPO_NAME]) in
  res = Raise SnapperExecutionException /\ is_backed_up s' LEGACY_REPO_NAME = true.
Proof. vm_compute. split; reflexivity. Qed.

(** C7, counterexample: one candidate fails in borg ([rc = 2]) on an
    optional repository, and snapper then fails to restore its cleanup
    algorithm: the repository's result is ERR. *)
Lemma optional_repo_err_on_restore_failure :
  exists r st',
    backup_to_repo (example_world restore_fails 2) (example_repo (FailAfterBool false))
      false false (Ok [example_snapshot []]) = (Ok r, st')
    /\ fail_after (example_repo (FailAfterBool false)) = FailAfterBool false
    /\ Exists (fun c => status c = ERR) (children r)
    /\ status r = ERR.
Proof.
  do 2 eexists. split; [vm_compute; reflexivity|].
  split; [reflexivity|]. split; [vm_compute; constructor; reflexivity | vm_compute; reflexivity].
Qed.

(** C8, counterexample: the one candidate had been backed up under the
    legacy name, borg reports the archive as existing, and the repository's
    result is WARN although no candidate is ERR. *)
Lemma migrated_candidate_warns :
  exists r st',
    backup_to_repo (example_world (fun _ => true) BORG_RETURNCODE_ARCHIVE_EXISTS)
      (example_repo (FailAfterBool true)) false false
      (Ok [example_snapshot [LEGACY_REPO_NAME]]) = (Ok r, st')
    /\ children r <> []
    /\ Forall (fun c => status c <> ERR) (children r)
    /\ status r = WARN.
Proof.
  do 2 eexists. split; [vm_compute; reflexivity|].
  vm_compute. split; [discriminate|]. split; [repeat constructor; discriminate | reflexivity].
Qed.

(** C6, amended: when a new-style repository (its name not the reserved
    legacy one) meets [borg create] reporting an existing archive for a
    snapshot tagged with the legacy name only, the recreating [borg delete]
    (if any) and every snapper invocation succeeding, [backup_snapshot]
    reports WARN and leaves the snapshot tagged with the repository's name
    only; the legacy tag then stays absent through any later backups of the
    snapshot to new-style repositories, so the migration is not triggered
    again. *)
Theorem legacy_migration_once w repo recreate dryrun s :
  is_old_config repo = false -> reserved_legacy_name repo ->
  _is_backed_up s = [LEGACY_REPO_NAME] ->
  (recreate = false \/ borg_call (borg_delete_rc w (number s)) = Ok tt) ->
  borg_create_rc w (number s) = BORG_RETURNCODE_ARCHIVE_EXISTS ->
  (forall c, snapper_ok w c = true) ->
  exists r s',
    backup_snapshot w repo recreate dryrun s = (Ok r, s')
    /\ status r = WARN
    /\ _is_backed_up s' = [name repo]
    /\ (forall steps,
          Forall (fun '(_, repo', _, _) =>
                    is_old_config repo' = false /\ reserved_legacy_name repo') steps ->
          is_backed_up (run_backups steps s') LEGACY_REPO_NAME = false).
Proof.
  intros Hold Hres Htags Hdel Hc Hok.
  assert (Hn : name repo <> LEGACY_REPO_NAME) by (apply Hres; exact Hold).
  assert (Hne : String.eqb (name repo) LEGACY_REPO_NAME = false)
    by (apply String.eqb_neq; exact Hn).
  assert (Hne' : String.eqb LEGACY_REPO_NAME (name repo) = false)
    by (apply String.eqb_neq; intros E; apply Hn; symmetry; exact E).
  destruct (backup_snapshot_try_exists w repo recreate dryrun s Hn Htags Hdel Hc Hok)
    as [s1 [E [Ht Hnum]]].
  unfold backup_snapshot. rewrite E.
  replace (Z.eqb BORG_RETURNCODE_ARCHIVE_EXISTS BORG_RETURNCODE_ARCHIVE_EXISTS
           && negb (is_old_config repo) && is_backed_up s1 LEGACY_REPO_NAME) with true
    by (rewrite Hold; unfold is_backed_up; rewrite Ht; cbn [existsb];
        rewrite String.eqb_refl; reflexivity).
  unfold st_bind, set_status.
  destruct (set_backup_status (snapper_ok w) s1 (name repo) true false) as [r2 s2] eqn:E2.
  pose proof (set_backup_status_ok (snapper_ok w) s1 (name repo) true false Hok) as H2.
  rewrite E2 in H2. cbn [fst] in H2. subst r2.
  unfold set_backup_status in E2. injection E2 as _ <-.
  destruct (set_backup_status (snapper_ok w)
              (with_backed_up s1 (str_set_add (name repo) (_is_backed_up s1)))
              LEGACY_REPO_NAME false false) as [r3 s3] eqn:E3.
  pose proof (set_backup_status_ok (snapper_ok w)
                (with_backed_up s1 (str_set_add (name repo) (_is_backed_up s1)))
                LEGACY_REPO_NAME false false Hok) as H3.
  rewrite E3 in H3. cbn [fst] in H3. subst r3.
  unfold set_backup_status in E3. injection E3 as _ <-.
  assert (Htags' : _is_backed_up (with_backed_up
                     (with_backed_up s1 (str_set_add (name repo) (_is_backed_up s1)))
                     (str_set_discard LEGACY_REPO_NAME
                        (_is_backed_up (with_backed_up s1 (str_set_add (name repo) (_is_backed_up s1))))))
                   = [name repo]).
  { cbn [_is_backed_up with_backed_up]. rewrite Ht.
    unfold str_set_add, str_set_discard. cbn [existsb orb]. rewrite Hne.
    cbn [orb app filter]. rewrite String.eqb_refl, Hne. reflexivity. }
  do 2 eexists. split; [reflexivity|]. split; [reflexivity|]. split; [exact Htags'|].
  intros steps Hsteps. apply run_backups_legacy.
  - eapply Forall_impl; [|exact Hsteps].
    intros [[[w' repo'] rc'] d'] [H1 H2]. exact (H2 H1).
  - unfold is_backed_up.
    transitivity (existsb (String.eqb LEGACY_REPO_NAME) [name repo]); [f_equal; exact Htags'|].
    cbn [existsb]. rewrite Hne'. reflexivity.
Qed.

(** Witness of C6 (amended): snapshot 1 tagged with the legacy name, a
    new-style repository, borg reporting the archive as existing. *)
Lemma legacy_migration_once_witness :
  is_old_config (example_repo (FailAfterBool false)) = false
  /\ reserved_legacy_name (example_repo (FailAfterBool false))
  /\ _is_backed_up (example_snapshot [LEGACY_REPO_NAME]) = [LEGACY_REPO_NAME]
  /\ (false = false \/ borg_call (borg_delete_rc (example_world (fun _ => true)
                                    BORG_RETURNCODE_ARCHIVE_EXISTS)
                                  (number (example_snapshot [LEGACY_REPO_NAME]))) = Ok tt)
  /\ borg_create_rc (example_world (fun _ => true) BORG_RETURNCODE_ARCHIVE_EXISTS)
       (number (example_snapshot [LEGACY_REPO_NAME])) = BORG_RETURNCODE_ARCHIVE_EXISTS
  /\ (forall c, snapper_ok (example_world (fun _ => true) BORG_RETURNCODE_ARCHIVE_EXISTS) c = true)
  /\ exists r s',
       backup_snapshot (example_world (fun _ => true) BORG_RETURNCODE_ARCHIVE_EXISTS)
         (example_repo (FailAfterBool false)) false false (example_snapshot [LEGACY_REPO_NAME])
         = (Ok r, s')
       /\ status r = WARN
       /\ _is_backed_up s' = [name (example_repo (FailAfterBool false))]
       /\ (forall steps,
             Forall (fun '(_, repo', _, _) =>
                       is_old_config repo' = false /\ reserved_legacy_name repo') steps ->
             is_backed_up (run_backups steps s') LEGACY_REPO_NAME = false).
Proof.
  assert (Hres : reserved_legacy_name (example_repo (FailAfterBool false)))
    by (intros _; apply String.eqb_neq; vm_compute; reflexivity).
  split; [reflexivity|]. split; [exact Hres|]. split; [reflexivity|].
  split; [left; reflexivity|]. split; [reflexivity|]. split; [intros; reflexivity|].
  exact (legacy_migration_once (example_world (fun _ => true) BORG_RETURNCODE_ARCHIVE_EXISTS)
           (example_repo (FailAfterBool false)) false false (example_snapshot [LEGACY_REPO_NAME])
           eq_refl Hres eq_refl (or_introl eq_refl) eq_refl (fun _ => eq_refl)).
Defined.

(** C7, amended: when snapper accepts every change of a cleanup algorithm
    (or under [dryrun]) and a candidate's result is ERR, the repository's
    result is WARN for [fail_after = false] and ERR for [fail_after = true];
    other snapper failures, such as a failed tag write, are allowed. *)
Theorem fail_after_bool_policy w repo recreate dryrun st r st' :
  cleanup_changes_ok w dryrun ->
  backup_to_repo w repo recreate dryrun (Ok st) = (Ok r, st') ->
  Exists (fun c => status c = ERR) (children r) ->
  (fail_after repo = FailAfterBool false -> status r = WARN)
  /\ (fail_after repo = FailAfterBool true -> status r = ERR).
Proof.
  intros Hc H Hex.
  destruct (backup_to_repo_policy w repo recreate dryrun st r st' Hc H) as [Hn|He].
  - rewrite Hn in Hex. inversion Hex.
  - apply ResultsSpec.existsb_ERR in Hex.
    unfold evaluate_policy in He. rewrite Hex in He.
    split; intros Hf; rewrite Hf in He; injection He as Hr; rewrite <- Hr; reflexivity.
Qed.

(** Witness of C7 (amended): borg succeeds on the one candidate of an
    optional repository but snapper fails to write its backup tag, so the
    candidate's result is ERR. *)
Lemma fail_after_bool_policy_witness :
  exists r st',
    cleanup_changes_ok (example_world userdata_fails 0) false
    /\ backup_to_repo (example_world userdata_fails 0) (example_repo (FailAfterBool false))
         false false (Ok [example_snapshot []]) = (Ok r, st')
    /\ Exists (fun c => status c = ERR) (children r)
    /\ (fail_after (example_repo (FailAfterBool false)) = FailAfterBool false -> status r = WARN)
    /\ (fail_after (example_repo (FailAfterBool false)) = FailAfterBool true -> status r = ERR).
Proof.
  destruct (backup_to_repo (example_world userdata_fails 0) (example_repo (FailAfterBool false))
              false false (Ok [example_snapshot []])) as [res st'] eqn:E.
  assert (Hres : exists r, res = Ok r /\ Exists (fun c => status c = ERR) (children r)).
  { vm_compute in E. injection E as <- _. eexists. split; [reflexivity|].
    vm_compute. constructor. reflexivity. }
  assert (Hc : cleanup_changes_ok (example_world userdata_fails 0) false)
    by (right; intros; reflexivity).
  destruct Hres as [r [-> Hex]].
  exists r, st'. split; [exact Hc|]. split; [reflexivity|]. split; [exact Hex|].
  exact (fail_after_bool_policy (example_world userdata_fails 0)
           (example_repo (FailAfterBool false)) false false [example_snapshot []] r st'
           Hc E Hex).
Defined.

(** C8, amended: when every snapper invocation succeeds and the candidates'
    results (at least one) include no ERR, the repository's result is
    derived from them: OK iff all of them are OK, WARN otherwise. *)
Theorem no_err_candidates_policy w repo recreate dryrun st r st' :
  (forall c, snapper_ok w c = true) ->
  backup_to_repo w repo recreate dryrun (Ok st) = (Ok r, st') ->
  children r <> [] ->
  Forall (fun c => status c <> ERR) (children r) ->
  (status r = OK <-> Forall (fun c => status c = OK) (children r))
  /\ (~ Forall (fun c => status c = OK) (children r) -> status r = WARN).
Proof.
  intros Hok H Hne Hall.
  destruct (backup_to_repo_shape w repo recreate dryrun st r st' Hok H) as [Hc|He];
    [contradiction|].
  remember (children r) as ch eqn:Hch.
  assert (Hx : existsb (fun it => status_eqb (status it) ERR) ch = false).
  { apply not_true_iff_false. intros Hx. apply ResultsSpec.existsb_ERR in Hx.
    rewrite Exists_exists in Hx. destruct Hx as [c [Hc He']].
    rewrite Forall_forall in Hall. exact (Hall c Hc He'). }
  unfold evaluate_policy in He. rewrite Hx in He. injection He as Hr. subst r.
  cbn [status from_children]. rewrite Hx.
  pose proof (ResultsSpec.forallb_OK ch) as HF.
  destruct (forallb (fun it => status_eqb (status it) OK) ch).
  - split; [split; [intros _; apply HF; reflexivity | reflexivity]|].
    intros Hn. exfalso. apply Hn, HF. reflexivity.
  - split; [split; [discriminate | intros Hf; apply HF in Hf; discriminate]|]. reflexivity.
Qed.

(** Witness of C8 (amended): the one candidate is backed up. *)
Lemma no_err_candidates_policy_witness :
  exists r st',
    (forall c, snapper_ok (example_world (fun _ => true) 0) c = true)
    /\ backup_to_repo (example_world (fun _ => true) 0) (example_repo (FailAfterBool true))
         false false (Ok [example_snapshot []]) = (Ok r, st')
    /\ children r <> []
    /\ Forall (fun c => status c <> ERR) (children r)
    /\ (status r = OK <-> Forall (fun c => status c = OK) (children r))
    /\ (~ Forall (fun c => status c = OK) (children r) -> status r = WARN).
Proof.
  destruct (backup_to_repo (example_world (fun _ => true) 0) (example_repo (FailAfterBool true))
              false false (Ok [example_snapshot []])) as [res st'] eqn:E.
  assert (Hres : exists r, res = Ok r /\ children r <> []
                           /\ Forall (fun c => status c <> ERR) (children r)).
  { vm_compute in E. injection E as <- _. eexists. split; [reflexivity|].
    vm_compute. split; [discriminate | repeat constructor; discriminate]. }
  destruct Hres as [r [-> [Hne Hall]]].
  exists r, st'. split; [intros; reflexivity|]. split; [reflexivity|].
  split; [exact Hne|]. split; [exact Hall|].
  exact (no_err_candidates_policy (example_world (fun _ => true) 0)
           (example_repo (FailAfterBool true)) false false [example_snapshot []] r st'
           (fun _ => eq_refl) E Hne Hall).
Defined.

End BackupSpec.

(** * The configuration dicts of [util.py] and [borg.py] *)
Module ConfigSpec.
Import PyValue UtilDict Borg.
Local Open Scope string_scope.

Lemma rbind_inv {A B} (m : Result A) (f : A -> Result B) r :
  rbind m f = Ret r -> exists x, m = Ret x /\ f x = Ret r.
Proof. destruct m as [x|e]; simpl; [eauto|discriminate]. Qed.

(** Induction on values, through the items of dicts. *)
Definition Val_ind' (P : Val -> Prop)
  (Hd : forall l, Forall (fun kv => P (snd kv)) l -> P (VDict l))
  (Hs : forall s, P (VStr s)) (Hi : forall z, P (VInt z)) (Hb : forall b, P (VBool b))
  (Hn : P VNone) : forall v, P v :=
  fix f v :=
    match v with
    | VDict l =>
        Hd l ((fix g (l : list (string * Val)) : Forall (fun kv => P (snd kv)) l :=
                 match l with
                 | [] => Forall_nil _
                 | (k, x) :: r => @Forall_cons _ (fun kv => P (snd kv)) (k, x) r (f x) (g r)
                 end) l)
    | VStr s => Hs s
    | VInt z => Hi z
    | VBool b => Hb b
    | VNone => Hn
    end.

Lemma copy_dict_id v : copy_dict v = v.
Proof.
  induction v as [l IH| | | |] using Val_ind'; try reflexivity.
  cbn [copy_dict]. f_equal. induction IH as [|[k x] r Hx _ IHr]; [reflexivity|].
  cbn [snd] in Hx. cbn. rewrite IHr. destruct (is_dict x); [rewrite Hx|]; reflexivity.
Qed.

Lemma lookup_app l1 l2 k :
  lookup (l1 ++ l2) k = match lookup l1 k with Some v => Some v | None => lookup l2 k end.
Proof.
  induction l1 as [|[k' v] r IH]; simpl; [reflexivity|].
  destruct (String.eqb k' k); [reflexivity | exact IH].
Qed.

Lemma lookup_filter_key (p : string -> bool) l k :
  lookup (filter (fun kv => p (fst kv)) l) k = if p k then lookup l k else None.
Proof.
  induction l as [|[k' v] r IH]; simpl; [destruct (p k); reflexivity|].
  destruct (String.eqb k' k) eqn:E.
  - apply String.eqb_eq in E. subst k'. destruct (p k); simpl; [rewrite String.eqb_refl|]; auto.
  - destruct (p k') eqn:Ep; simpl; [rewrite E|]; exact IH.
Qed.

Lemma lookup_map_snd (g : Val -> Val) l k :
  lookup (map (fun kv => (fst kv, g (snd kv))) l) k = option_map g (lookup l k).
Proof.
  induction l as [|[k' v] r IH]; simpl; [reflexivity|].
  destruct (String.eqb k' k); [reflexivity | exact IH].
Qed.

Lemma mem_key_lookup k l :
  mem_key k l = match lookup l k with Some _ => true | None => false end.
Proof.
  unfold mem_key. induction l as [|[k' v] r IH]; simpl; [reflexivity|].
  destruct (String.eqb k' k); [reflexivity | exact IH].
Qed.

Lemma lookup_In l k v : lookup l k = Some v -> In (k, v) l.
Proof.
  induction l as [|[k' v'] r IH]; simpl; [discriminate|].
  destruct (String.eqb k' k) eqn:E; [|intros H; right; apply IH, H].
  apply String.eqb_eq in E. intros H; injection H as <-. left; subst; reflexivity.
Qed.

Lemma In_lookup l k v : In (k, v) l -> exists w, lookup l k = Some w.
Proof.
  induction l as [|[k' v'] r IH]; simpl; [contradiction|].
  intros [H|H]; destruct (String.eqb k' k) eqn:E; eauto.
  injection H as -> ->. rewrite String.eqb_refl in E. discriminate.
Qed.

(** The comprehension over the common keys, with the recursive call [f]. *)
Definition merge_common (f : Val -> Val -> Result Val) (dl : list (string * Val))
  : list (string * Val) -> Result (list (string * Val)) :=
  fix go (l : list (string * Val)) : Result (list (string * Val)) :=
    match l with
    | [] => Ret []
    | (k, bv) :: r =>
        match lookup dl k with
        | Some dv => let? m := f bv dv in let? rest := go r in Ret ((k, m) :: rest)
        | None => go r
        end
    end.

Lemma selective_merge_dicts bl dl rk :
  selective_merge (VDict bl) (VDict dl) rk =
  let? merged := merge_common (fun b d => selective_merge b d rk) dl bl in
  Ret (VDict ((if rk then [] else filter (fun kv => negb (mem_key (fst kv) dl)) bl)
              ++ merged
              ++ map (fun kv => (fst kv, if is_dict (snd kv) then copy_dict (snd kv) else snd kv))
                     (filter (fun kv => negb (mem_key (fst kv) bl)) dl))).
Proof. reflexivity. Qed.

Lemma merge_common_lookup f dl bl merged :
  merge_common f dl bl = Ret merged ->
  forall k, match lookup bl k, lookup dl k with
            | Some bv, Some dv => exists mv, f bv dv = Ret mv /\ lookup merged k = Some mv
            | _, _ => lookup merged k = None
            end.
Proof.
  revert merged. induction bl as [|[k' bv] r IH]; intros merged H k.
  - cbn in H. injection H as <-. cbn. destruct (lookup dl k); reflexivity.
  - cbn [merge_common] in H. fold (merge_common f dl) in H. cbn [lookup].
    destruct (String.eqb k' k) eqn:E.
    + apply String.eqb_eq in E. subst k'.
      destruct (lookup dl k) as [dv|] eqn:Ed.
      * apply rbind_inv in H as [m [Hm H]]. apply rbind_inv in H as [rest [_ H]].
        injection H as <-. exists m. split; [exact Hm|]. cbn. rewrite String.eqb_refl. reflexivity.
      * apply IH with (k := k) in H. rewrite Ed in H.
        destruct (lookup r k); exact H.
    + destruct (lookup dl k') as [dv|].
      * apply rbind_inv in H as [m [Hm H]]. apply rbind_inv in H as [rest [Hr H]].
        injection H as <-. cbn. rewrite E. apply IH. exact Hr.
      * apply IH. exact H.
Qed.

(** The lookup of every key in a merge of two dicts. *)
Lemma selective_merge_lookup bl dl rk m :
  selective_merge (VDict bl) (VDict dl) rk = Ret m ->
  exists ml, m = VDict ml /\
    forall k, match lookup bl k, lookup dl k with
              | None, dv => lookup ml k = dv
              | Some bv, None => lookup ml k = if rk then None else Some bv
              | Some bv, Some dv =>
                  exists mv, selective_merge bv dv rk = Ret mv /\ lookup ml k = Some mv
              end.
Proof.
  rewrite selective_merge_dicts. intros H. apply rbind_inv in H as [merged [Hm H]].
  injection H as <-. eexists; split; [reflexivity|]. intros k.
  pose proof (merge_common_lookup _ dl bl merged Hm k) as Hc.
  rewrite !lookup_app, (lookup_map_snd (fun v => if is_dict v then copy_dict v else v)).
  rewrite (lookup_filter_key (fun k => negb (mem_key k bl))).
  rewrite !mem_key_lookup.
  assert (Hcopy : forall v, (if is_dict v then copy_dict v else v) = v)
    by (intros v; rewrite copy_dict_id; destruct (is_dict v); reflexivity).
  destruct rk; [|rewrite (lookup_filter_key (fun k => negb (mem_key k dl))), mem_key_lookup];
  destruct (lookup bl k) as [bv|] eqn:Eb; destruct (lookup dl k) as [dv|] eqn:Ed; cbn;
  rewrite ?Eb;
  try (lazymatch type of Hc with
       | exists _, _ => destruct Hc as [mv [Hmv Hl]]; exists mv; split; [exact Hmv|]
       end);
  rewrite ?Hl, ?Hc; cbn; rewrite ?Hcopy; reflexivity.
Qed.


Lemma merge_nondict_base b d rk : is_dict b = false -> selective_merge b d rk = Ret b.
Proof. destruct b; simpl; congruence. Qed.

(** A non-dict delta other than the empty string keeps a base value only
    when it is not a dict. *)
Lemma merge_scalar_delta u d rk m :
  is_dict d = false -> d <> VStr EmptyString -> selective_merge u d rk = Ret m -> m = u.
Proof.
  intros Hd Hne. destruct u as [l| | | |]; simpl; try congruence.
  destruct d as [|[|c s]| | |]; simpl in *; congruence.
Qed.

Lemma merge_dict_result b d rk m l :
  selective_merge b d rk = Ret m -> m = VDict l -> exists bl, b = VDict bl.
Proof.
  destruct b; [eauto|..]; simpl; intros H ->; discriminate.
Qed.

Lemma getitem_dict v k x : getitem v k = Ret x -> exists l, v = VDict l /\ lookup l k = Some x.
Proof.
  destruct v as [l| | | |]; simpl; try discriminate.
  destruct (lookup l k) eqn:E; intros H; [injection H as <-; eauto | discriminate].
Qed.

Lemma restrict_keys_lookup template target r :
  restrict_keys template target = Ret r ->
  exists tl, target = VDict tl /\ exists rl, r = VDict rl /\
    forall k, lookup rl k = if mem_key k template then lookup tl k else None.
Proof.
  destruct target as [tl| | | |]; simpl; try discriminate. intros H; injection H as <-.
  exists tl; split; [reflexivity|]. eexists; split; [reflexivity|]. intros k.
  apply (lookup_filter_key (fun k => mem_key k template)).
Qed.

Definition default_items : list (string * Val) :=
  [("storage", VDict [("encryption", VStr "none"); ("compression", VStr "auto,zstd,4")]);
   ("retention", VDict DEFAULT_RETENTION)].

(** The steps of [create_from_config] that succeeded for a returned repo. *)
Lemma create_from_config_steps ii rf config r :
  create_from_config ii rf config = Ret r ->
  exists cl ml storage cret,
    config = VDict cl
    /\ selective_merge (VDict cl) (VDict default_items) false = Ret (VDict ml)
    /\ lookup ml "storage" = Some storage
    /\ getitem storage "encryption" = Ret (encryption r)
    /\ getitem storage "compression" = Ret (compression r)
    /\ lookup ml "retention" = Some cret
    /\ restrict_keys DEFAULT_RETENTION cret = Ret (retention r)
    /\ (if eq_str (encryption r) "none" then Ret None
        else if eq_str (encryption r) "repokey" || eq_str (encryption r) "repokey-blake2" then
          let? pp := getitem storage "encryption_passphrase" in
          let? p := get_password rf pp in Ret (Some p)
        else Throw (Exception "Invalid or unsupported encryption mode given!"))
       = Ret (passphrase r).
Proof.
  unfold create_from_config. intros H.
  apply rbind_inv in H as [repo [Hrepo H]]. destruct (negb (truthy repo)); [discriminate|].
  apply rbind_inv in H as [nm [_ H]]. destruct (negb (truthy nm)); [discriminate|].
  apply rbind_inv in H as [mc [Hmc H]].
  apply rbind_inv in H as [storage [Hst H]].
  apply rbind_inv in H as [enc [Henc H]].
  apply rbind_inv in H as [comp [Hcomp H]].
  apply rbind_inv in H as [cret [Hcret H]].
  apply rbind_inv in H as [ret [Hret H]].
  apply rbind_inv in H as [pw [Hpw H]].
  injection H as <-. cbn [encryption compression retention passphrase].
  apply getitem_dict in Hrepo as [cl [-> _]].
  apply getitem_dict in Hst as [ml [-> Hst]].
  apply getitem_dict in Hcret as [ml' [Eml Hcret]]. injection Eml as <-.
  exists cl, ml, storage, cret. repeat split; assumption.
Qed.

Definition user_section (config : Val) (section k : string) : option Val :=
  match config with
  | VDict cl =>
      match lookup cl section with
      | Some (VDict ul) => lookup ul k
      | _ => None
      end
  | _ => None
  end.

Lemma default_retention_scalar k dv :
  lookup DEFAULT_RETENTION k = Some dv -> is_dict dv = false /\ dv <> VStr EmptyString.
Proof.
  unfold DEFAULT_RETENTION. cbn [lookup].
  repeat (destruct (String.eqb _ k); [intros H; injection H as <-; split; [reflexivity|discriminate]|]).
  discriminate.
Qed.


Lemma merged_section cl ml sec dv uv_opt :
  selective_merge (VDict cl) (VDict default_items) false = Ret (VDict ml) ->
  lookup default_items sec = Some (VDict dv) ->
  lookup cl sec = uv_opt ->
  forall x, lookup ml sec = Some x ->
  match uv_opt with
  | None => x = VDict dv
  | Some uv => selective_merge uv (VDict dv) false = Ret x
  end.
Proof.
  intros Hm Hd Hu x Hx. apply selective_merge_lookup in Hm as [ml' [E Hk]].
  injection E as <-. specialize (Hk sec). rewrite Hd, Hu in Hk.
  destruct uv_opt as [uv|].
  - destruct Hk as [mv [Hmv Hl]]. rewrite Hx in Hl. injection Hl as ->. exact Hmv.
  - rewrite Hx in Hk. injection Hk as ->. reflexivity.
Qed.

(** Inside a merged section: the user's scalar, else the default. *)
Lemma merged_key uv dv x k d :
  selective_merge uv (VDict dv) false = Ret x -> x = VDict d ->
  lookup dv k <> None ->
  (forall v, lookup dv k = Some v -> is_dict v = false /\ v <> VStr EmptyString) ->
  exists ul, uv = VDict ul /\
    lookup d k = match lookup ul k with Some u => Some u | None => lookup dv k end.
Proof.
  intros Hm Ex Hin Hsc. subst x.
  destruct (merge_dict_result _ _ _ _ _ Hm eq_refl) as [ul ->].
  exists ul. split; [reflexivity|].
  apply selective_merge_lookup in Hm as [d' [E Hk]]. injection E as <-.
  specialize (Hk k). destruct (lookup dv k) as [v|] eqn:Ev; [|contradiction].
  destruct (lookup ul k) as [u|].
  - destruct Hk as [mv [Hmv Hl]]. rewrite Hl. f_equal.
    destruct (Hsc v eq_refl) as [H1 H2]. exact (merge_scalar_delta _ _ _ _ H1 H2 Hmv).
  - exact Hk.
Qed.


Definition default_storage : list (string * Val) :=
  [("encryption", VStr "none"); ("compression", VStr "auto,zstd,4")].

Lemma default_storage_scalar k v :
  lookup default_storage k = Some v -> is_dict v = false /\ v <> VStr EmptyString.
Proof.
  unfold default_storage. cbn [lookup].
  repeat (destruct (String.eqb _ k); [intros H; injection H as <-; split; [reflexivity|discriminate]|]).
  discriminate.
Qed.

Lemma eq_str_true v s : eq_str v s = true -> v = VStr s.
Proof. destruct v; simpl; try discriminate. intros H; apply String.eqb_eq in H; subst; reflexivity. Qed.

(** The merged [storage] section, read at a key. *)
Lemma storage_key cl ml storage k x :
  selective_merge (VDict cl) (VDict default_items) false = Ret (VDict ml) ->
  lookup ml "storage" = Some storage ->
  getitem storage k = Ret x ->
  match lookup default_storage k with
  | Some dv => x = match user_section (VDict cl) "storage" k with Some u => u | None => dv end
  | None => user_section (VDict cl) "storage" k = Some x
  end.
Proof.
  intros Hm Hs Hg. apply getitem_dict in Hg as [d [-> Hd]].
  pose proof (merged_section cl ml "storage" default_storage (lookup cl "storage") Hm eq_refl eq_refl _ Hs) as Hx.
  unfold user_section.
  destruct (lookup cl "storage") as [uv|] eqn:Eu.
  - destruct (merge_dict_result _ _ _ _ _ Hx eq_refl) as [ul ->].
    destruct (lookup default_storage k) as [dv|] eqn:Edk.
    + destruct (merged_key (VDict ul) default_storage (VDict d) k d Hx eq_refl
                  ltac:(congruence) (default_storage_scalar k)) as [ul' [E Hk]].
      injection E as <-. rewrite Hd, Edk in Hk.
      destruct (lookup ul k); injection Hk as ->; reflexivity.
    + apply selective_merge_lookup in Hx as [d' [E Hk]]. injection E as <-.
      specialize (Hk k). rewrite Edk in Hk.
      destruct (lookup ul k); rewrite Hk in Hd; exact Hd.
  - injection Hx as ->. rewrite Hd. reflexivity.
Qed.


Lemma filter_none_mem (l : list (string * Val)) :
  filter (fun kv => negb (mem_key (fst kv) [])) l = l.
Proof. induction l as [|kv r IH]; [reflexivity|]. cbn [filter]. rewrite IH. reflexivity. Qed.

Lemma merge_common_nil f bl : merge_common f [] bl = Ret [].
Proof. induction bl as [|[k v] r IH]; simpl; [reflexivity | exact IH]. Qed.

Lemma map_copy_id (l : list (string * Val)) :
  map (fun kv => (fst kv, if is_dict (snd kv) then copy_dict (snd kv) else snd kv)) l = l.
Proof.
  induction l as [|[k v] r IH]; simpl; [reflexivity|]. rewrite IH, copy_dict_id.
  destruct (is_dict v); reflexivity.
Qed.

Definition override_items (override : Val) : list (string * Val) :=
  match override with VDict ol => ol | _ => [] end.

Lemma override_or_empty o ol :
  (if truthy o then o else VDict []) = VDict ol -> ol = override_items o.
Proof.
  destruct o as [[|kv l]|s|z|b|]; simpl; intros H; try (injection H as <-; reflexivity);
    try (destruct (negb _); [discriminate | injection H as <-; reflexivity]).
  destruct b; [discriminate | injection H as <-; reflexivity].
Qed.

(** ** [util.selective_merge] *)

(** X1: a merge of two dicts gives, at a key only in [delta_obj], the delta's
    value (copied); at a key only in [base_obj], the base's value unless
    [restrict_keys] is set, and then no entry; at a common key, the merge of
    the two values. *)
Theorem selective_merge_spec bl dl rk m :
  selective_merge (VDict bl) (VDict dl) rk = Ret m ->
  exists ml, m = VDict ml /\
    forall k, match lookup bl k, lookup dl k with
              | None, dv => lookup ml k = dv
              | Some bv, None => lookup ml k = if rk then None else Some bv
              | Some bv, Some dv =>
                  exists mv, selective_merge bv dv rk = Ret mv /\ lookup ml k = Some mv
              end.
Proof. exact (selective_merge_lookup bl dl rk m). Qed.

(** X2: the empty dict is neutral for [selective_merge] without key
    restriction: [selective_merge({}, d)] is a copy equal to [d], and
    [selective_merge(b, {})] equals [b]. *)
Theorem selective_merge_empty bl dl :
  selective_merge (VDict []) (VDict dl) false = Ret (VDict dl)
  /\ selective_merge (VDict bl) (VDict []) false = Ret (VDict bl).
Proof.
  split; rewrite selective_merge_dicts.
  - cbn [merge_common rbind filter app]. rewrite filter_none_mem, map_copy_id. reflexivity.
  - rewrite merge_common_nil. cbn [rbind filter map]. rewrite filter_none_mem, !app_nil_r.
    reflexivity.
Qed.

(** ** [BorgRepo.create_from_config] *)

(** X3: the retention of a repo created from a config has exactly the keys
    of the default retention ([keep_last], [keep_hourly], [keep_daily],
    [keep_weekly], [keep_monthly], [keep_yearly]), each with the config's
    value where it gives one and the default otherwise; other keys of the
    config's retention (such as [keep_minutely]) are dropped. *)
Theorem create_from_config_retention ii rf config r :
  create_from_config ii rf config = Ret r ->
  exists rl, retention r = VDict rl /\
    forall k, lookup rl k =
      match lookup DEFAULT_RETENTION k with
      | None => None
      | Some dv => Some (match user_section config "retention" k with Some uv => uv | None => dv end)
      end.
Proof.
  intros H.
  apply create_from_config_steps in H as (cl & ml & storage & cret & -> & Hm & _ & _ & _ & Hcr & Hr & _).
  apply restrict_keys_lookup in Hr as [tl [Etl [rl [Erl Hrl]]]].
  exists rl. split; [exact Erl|]. intros k. rewrite Hrl, mem_key_lookup.
  pose proof (merged_section cl ml "retention" DEFAULT_RETENTION (lookup cl "retention")
                Hm eq_refl eq_refl cret Hcr) as Hs.
  unfold user_section.
  destruct (lookup DEFAULT_RETENTION k) as [dv|] eqn:Ed; [|reflexivity].
  destruct (lookup cl "retention") as [uv|] eqn:Eu.
  - destruct (merged_key uv DEFAULT_RETENTION cret k tl Hs Etl ltac:(congruence)
                (default_retention_scalar k)) as [ul [-> Hk]].
    rewrite Hk, Ed. destruct (lookup ul k); reflexivity.
  - rewrite Etl in Hs. injection Hs as ->. rewrite Ed. reflexivity.
Qed.

(** X4: a repo created from a config takes the config's [storage]
    [encryption] and [compression] where given, and otherwise [none] and
    [auto,zstd,4]. *)
Theorem create_from_config_storage ii rf config r :
  create_from_config ii rf config = Ret r ->
  encryption r = match user_section config "storage" "encryption" with
                 | Some v => v | None => VStr "none" end
  /\ compression r = match user_section config "storage" "compression" with
                     | Some v => v | None => VStr "auto,zstd,4" end.
Proof.
  intros H.
  apply create_from_config_steps in H as (cl & ml & storage & cret & -> & Hm & Hs & He & Hc & _).
  split.
  - exact (storage_key cl ml storage "encryption" _ Hm Hs He).
  - exact (storage_key cl ml storage "compression" _ Hm Hs Hc).
Qed.

(** X5: a repo created from a config is either unencrypted ([none]) without
    passphrase, or uses [repokey] or [repokey-blake2] with the passphrase
    that [get_password] gives for the config's
    [storage.encryption_passphrase]; no other encryption mode is
    accepted. *)
Theorem create_from_config_passphrase ii rf config r :
  create_from_config ii rf config = Ret r ->
  (encryption r = VStr "none" /\ passphrase r = None)
  \/ ((encryption r = VStr "repokey" \/ encryption r = VStr "repokey-blake2")
      /\ exists pp p, user_section config "storage" "encryption_passphrase" = Some pp
                      /\ get_password rf pp = Ret p /\ passphrase r = Some p).
Proof.
  intros H.
  apply create_from_config_steps in H as (cl & ml & storage & cret & -> & Hm & Hs & _ & _ & _ & _ & Hp).
  destruct (eq_str (encryption r) "none") eqn:En.
  - left. split; [apply eq_str_true; exact En | injection Hp as <-; reflexivity].
  - destruct (eq_str (encryption r) "repokey") eqn:Ek; destruct (eq_str (encryption r) "repokey-blake2") eqn:Eb;
      cbn [orb] in Hp; try discriminate; right;
      (split; [apply eq_str_true in Ek || apply eq_str_true in Eb; auto|]);
      apply rbind_inv in Hp as [pp [Hpp Hp]]; apply rbind_inv in Hp as [p [Hg Hp]];
      injection Hp as <-; exists pp, p;
      (split; [exact (storage_key cl ml storage "encryption_passphrase" pp Hm Hs Hpp) | auto]).
Qed.

(** ** [BorgRepo.prune] *)

(** X6: [prune] passes borg one option pair [--<key> <value>] per entry of
    the merged settings (underscores of the key turned into dashes), then
    [--glob-archives '<config>-*'] and the repository path. The keys are
    exactly the keys of the repo's retention: an override's other keys are
    ignored. At each key the override's (non-dict) value wins over the
    repo's value. *)
Theorem prune_invocation_spec r override args rl :
  retention r = VDict rl ->
  prune_invocation r override = Ret args ->
  exists settings,
    args = app [VStr "prune"; VStr "--list"]
             (app (flat_map (fun kv => [VStr ("--" ++ dashes (fst kv)); VStr (py_str (snd kv))])
                            settings)
                  [VStr "--glob-archives"; VStr ("'" ++ py_str (snapper_config r) ++ "-*'");
                   repopath r])
    /\ (forall k w, In (k, w) settings -> lookup rl k <> None)
    /\ (forall k v, lookup rl k = Some v ->
          (lookup (override_items override) k = None -> lookup settings k = Some v)
          /\ (forall o, lookup (override_items override) k = Some o -> is_dict o = false ->
                        lookup settings k = Some o)).
Proof.
  intros Hr H. unfold prune_invocation in H. rewrite Hr in H.
  apply rbind_inv in H as [rs [Hm H]]. apply rbind_inv in H as [settings [Hi H]].
  injection H as <-. destruct rs as [sl| | | |]; cbn in Hi; try discriminate.
  injection Hi as ->. exists settings. split; [reflexivity|].
  destruct (merge_dict_result _ _ _ _ _ Hm eq_refl) as [ol Eo].
  rewrite Eo in Hm. apply override_or_empty in Eo. subst ol.
  apply selective_merge_lookup in Hm as [sl [E Hk]]. injection E as <-.
  split.
  - intros k w Hin Hn. apply In_lookup in Hin as [w' Hw]. specialize (Hk k). rewrite Hn in Hk.
    destruct (lookup (override_items override) k); congruence.
  - intros k v Hv. specialize (Hk k). rewrite Hv in Hk. split.
    + intros Ho. rewrite Ho in Hk. exact Hk.
    + intros o Ho Hd. rewrite Ho in Hk. destruct Hk as [mv [Hmv Hl]].
      rewrite merge_nondict_base in Hmv by exact Hd. injection Hmv as <-. exact Hl.
Qed.

(** X7: in dry-run, [prune] never runs borg: its outcome does not depend on
    borg's exit codes. *)
Theorem prune_dryrun_no_borg rc1 rc2 r override :
  prune rc1 r override true = prune rc2 r override true.
Proof.
  unfold prune, launch_borg. destruct (prune_invocation r override) as [args|e]; [|reflexivity].
  cbn [rbind]. destruct (is_interactive r); [destruct (all_str _)|]; reflexivity.
Qed.

(** ** Witnesses *)

Definition example_base : list (string * Val) :=
  [("keep_daily", VInt 3); ("storage", VDict [("encryption", VStr "repokey")])].
Definition example_delta : list (string * Val) :=
  [("keep_daily", VInt 7); ("keep_last", VInt 1); ("storage", VDict [("compression", VStr "lz4")])].

Lemma selective_merge_spec_witness :
  selective_merge (VDict example_base) (VDict example_delta) false
    = Ret (VDict [("keep_daily", VInt 3);
                  ("storage", VDict [("encryption", VStr "repokey"); ("compression", VStr "lz4")]);
                  ("keep_last", VInt 1)])
  /\ exists ml, VDict [("keep_daily", VInt 3);
                      ("storage", VDict [("encryption", VStr "repokey"); ("compression", VStr "lz4")]);
                      ("keep_last", VInt 1)] = VDict ml /\
    forall k, match lookup example_base k, lookup example_delta k with
              | None, dv => lookup ml k = dv
              | Some bv, None => lookup ml k = if false then None else Some bv
              | Some bv, Some dv =>
                  exists mv, selective_merge bv dv false = Ret mv /\ lookup ml k = Some mv
              end.
Proof.
  split; [reflexivity|]. apply selective_merge_spec. reflexivity.
Defined.

Definition example_config : Val :=
  VDict [("repo", VStr "/srv/borg"); ("name", VStr "root");
         ("retention", VDict [("keep_daily", VInt 3); ("keep_minutely", VInt 9)]);
         ("storage", VDict [("encryption", VStr "repokey"); ("encryption_passphrase", VStr "secret")])].

Definition example_created : BorgRepo :=
  mkBorgRepo (VStr "/srv/borg") (VStr "auto,zstd,4")
    (VDict [("keep_daily", VInt 3); ("keep_last", VInt 1); ("keep_hourly", VInt 0);
            ("keep_weekly", VInt 4); ("keep_monthly", VInt 3); ("keep_yearly", VInt 5)])
    (VStr "repokey") (Some "secret") (VStr "root") false.

Definition no_files (p : string) : Result string := Throw FileNotFoundError.

Lemma create_from_config_retention_witness :
  create_from_config false no_files example_config = Ret example_created
  /\ exists rl, retention example_created = VDict rl /\
    forall k, lookup rl k =
      match lookup DEFAULT_RETENTION k with
      | None => None
      | Some dv => Some (match user_section example_config "retention" k with
                         | Some uv => uv | None => dv end)
      end.
Proof.
  split; [reflexivity|]. apply (create_from_config_retention false no_files example_config).
  reflexivity.
Defined.

Lemma create_from_config_storage_witness :
  create_from_config false no_files example_config = Ret example_created
  /\ encryption example_created = match user_section example_config "storage" "encryption" with
                                  | Some v => v | None => VStr "none" end
  /\ compression example_created = match user_section example_config "storage" "compression" with
                                   | Some v => v | None => VStr "auto,zstd,4" end.
Proof.
  split; [reflexivity|]. apply (create_from_config_storage false no_files example_config).
  reflexivity.
Defined.

Lemma create_from_config_passphrase_witness :
  create_from_config false no_files example_config = Ret example_created
  /\ ((encryption example_created = VStr "none" /\ passphrase example_created = None)
      \/ ((encryption example_created = VStr "repokey"
           \/ encryption example_created = VStr "repokey-blake2")
          /\ exists pp p, user_section example_config "storage" "encryption_passphrase" = Some pp
                          /\ get_password no_files pp = Ret p /\ passphrase example_created = Some p)).
Proof.
  split; [reflexivity|]. apply (create_from_config_passphrase false no_files example_config).
  reflexivity.
Defined.

Definition example_override : Val := VDict [("keep_daily", VInt 1); ("keep_secondly", VInt 5)].

Lemma prune_invocation_spec_witness :
  retention example_created
    = VDict [("keep_daily", VInt 3); ("keep_last", VInt 1); ("keep_hourly", VInt 0);
             ("keep_weekly", VInt 4); ("keep_monthly", VInt 3); ("keep_yearly", VInt 5)]
  /\ prune_invocation example_created example_override
       = Ret [VStr "prune"; VStr "--list"; VStr "--keep-daily"; VStr "1";
              VStr "--keep-last"; VStr "1"; VStr "--keep-hourly"; VStr "0";
              VStr "--keep-weekly"; VStr "4"; VStr "--keep-monthly"; VStr "3";
              VStr "--keep-yearly"; VStr "5"; VStr "--glob-archives"; VStr "'root-*'";
              VStr "/srv/borg"]
  /\ exists settings,
    [VStr "prune"; VStr "--list"; VStr "--keep-daily"; VStr "1";
     VStr "--keep-last"; VStr "1"; VStr "--keep-hourly"; VStr "0";
     VStr "--keep-weekly"; VStr "4"; VStr "--keep-monthly"; VStr "3";
     VStr "--keep-yearly"; VStr "5"; VStr "--glob-archives"; VStr "'root-*'";
     VStr "/srv/borg"]
    = app [VStr "prune"; VStr "--list"]
        (app (flat_map (fun kv => [VStr ("--" ++ dashes (fst kv)); VStr (py_str (snd kv))])
                       settings)
             [VStr "--glob-archives"; VStr ("'" ++ py_str (snapper_config example_created) ++ "-*'");
              repopath example_created])
    /\ (forall k w, In (k, w) settings ->
          lookup [("keep_daily", VInt 3); ("keep_last", VInt 1); ("keep_hourly", VInt 0);
                  ("keep_weekly", VInt 4); ("keep_monthly", VInt 3); ("keep_yearly", VInt 5)] k <> None)
    /\ (forall k v,
          lookup [("keep_daily", VInt 3); ("keep_last", VInt 1); ("keep_hourly", VInt 0);
                  ("keep_weekly", VInt 4); ("keep_monthly", VInt 3); ("keep_yearly", VInt 5)] k = Some v ->
          (lookup (override_items example_override) k = None -> lookup settings k = Some v)
          /\ (forall o, lookup (override_items example_override) k = Some o -> is_dict o = false ->
                        lookup settings k = Some o)).
Proof.
  split; [reflexivity|]. split; [reflexivity|].
  apply prune_invocation_spec; reflexivity.
Defined.

End ConfigSpec.

(** ** [snapborg/snapper.py]: the [prevent_cleanup] context manager *)
Module SnapperTraceSpec.
Import Snapper SnapperTrace.

Lemma run_all_traced_ok ok calls :
  (forall c, In c calls -> ok c = true) -> run_all_traced ok false calls = (Ok tt, calls).
Proof.
  induction calls as [|c rest IH]; intros H; [reflexivity|]. cbn [run_all_traced].
  unfold run_snapper_traced, run_snapper. rewrite (H c (or_introl eq_refl)).
  rewrite IH by (intros x Hx; apply H; right; exact Hx). reflexivity.
Qed.

Lemma run_all_traced_dry ok calls : run_all_traced ok true calls = (Ok tt, []).
Proof. induction calls as [|c rest IH]; [reflexivity|]. cbn. rewrite IH. reflexivity. Qed.

Lemma run_all_traced_fail ok pre c post :
  (forall x, In x pre -> ok x = true) -> ok c = false ->
  run_all_traced ok false (pre ++ c :: post) = (Raise SnapperExecutionException, pre ++ [c]).
Proof.
  intros Hpre Hc. induction pre as [|x pre IH]; cbn [app run_all_traced];
    unfold run_snapper_traced, run_snapper.
  - rewrite Hc. reflexivity.
  - rewrite (Hpre x (or_introl eq_refl)).
    rewrite IH by (intros y Hy; apply Hpre; right; exact Hy). reflexivity.
Qed.

Lemma in_map_call (f : SnapperSnapshot -> SnapperCall) (P : SnapperCall -> Prop) ss :
  (forall s, In s ss -> P (f s)) -> forall c, In c (map f ss) -> P c.
Proof. intros H c Hc. apply in_map_iff in Hc as [s [<- Hs]]. exact (H s Hs). Qed.

(** X8: when snapper accepts every call, [prevent_cleanup] disables the
    cleanup of each snapshot in turn, runs the block, then restores each
    snapshot's cleanup algorithm; its outcome is the block's. *)
Theorem prevent_cleanup_success {X} ok ss (body : Exc X * list SnapperCall) :
  (forall s, In s ss -> ok (prevent_cleanup_call s) = true /\ ok (restore_cleanup_call s) = true) ->
  prevent_cleanup ok false ss body
    = (fst body, map prevent_cleanup_call ss ++ snd body ++ map restore_cleanup_call ss).
Proof.
  intros H. unfold prevent_cleanup.
  rewrite run_all_traced_ok by (apply in_map_call; intros s Hs; apply H; exact Hs).
  destruct body as [rb tb].
  rewrite run_all_traced_ok by (apply in_map_call; intros s Hs; apply H; exact Hs).
  reflexivity.
Qed.

(** X9: when disabling the cleanup of a snapshot fails, [prevent_cleanup]
    raises [SnapperExecutionException] before the block runs: the snapper
    calls issued are those disabling the cleanup of the snapshots up to the
    failing one, and no cleanup is restored. *)
Theorem prevent_cleanup_prevent_fails {X} ok pre s post (body : Exc X * list SnapperCall) :
  (forall x, In x pre -> ok (prevent_cleanup_call x) = true) ->
  ok (prevent_cleanup_call s) = false ->
  prevent_cleanup ok false (pre ++ s :: post) body
    = (Raise SnapperExecutionException, map prevent_cleanup_call (pre ++ [s])).
Proof.
  intros Hpre Hs. unfold prevent_cleanup. rewrite map_app. cbn [map].
  rewrite run_all_traced_fail by (try apply in_map_call; assumption).
  rewrite map_app. reflexivity.
Qed.

(** X10: when restoring the cleanup of a snapshot fails, [prevent_cleanup]
    raises [SnapperExecutionException] whatever the block's outcome, after
    running the block; the restores stop at the failing snapshot. *)
Theorem prevent_cleanup_restore_fails {X} ok pre s post (body : Exc X * list SnapperCall) :
  (forall x, In x (pre ++ s :: post) -> ok (prevent_cleanup_call x) = true) ->
  (forall x, In x pre -> ok (restore_cleanup_call x) = true) ->
  ok (restore_cleanup_call s) = false ->
  prevent_cleanup ok false (pre ++ s :: post) body
    = (Raise SnapperExecutionException,
       map prevent_cleanup_call (pre ++ s :: post) ++ snd body
       ++ map restore_cleanup_call (pre ++ [s])).
Proof.
  intros Hp Hpre Hs. unfold prevent_cleanup.
  rewrite run_all_traced_ok by (apply in_map_call; exact Hp).
  destruct body as [rb tb]. rewrite map_app. cbn [map].
  rewrite run_all_traced_fail by (try apply in_map_call; assumption).
  cbn [snd]. rewrite (map_app restore_cleanup_call). reflexivity.
Qed.

(** X11: under [dryrun], [prevent_cleanup] issues no snapper call and the
    block's outcome and calls are left as they are. *)
Theorem prevent_cleanup_dryrun {X} ok ss (body : Exc X * list SnapperCall) :
  prevent_cleanup ok true ss body = body.
Proof.
  unfold prevent_cleanup. rewrite run_all_traced_dry. destruct body as [rb tb].
  rewrite run_all_traced_dry. cbn. rewrite app_nil_r. reflexivity.
Qed.

Definition snap (n : Z) : SnapperSnapshot := mkSnapperSnapshot n 0 "number"%string [].

Definition cleanup_ok (c : SnapperCall) : bool :=
  match c with ModifyCleanup _ _ => true | ModifyUserdata _ _ => false end.

Definition prevent_fails_at_7 (c : SnapperCall) : bool :=
  match c with
  | ModifyCleanup n a => negb (Z.eqb n 7 && String.eqb a EmptyString)
  | ModifyUserdata _ _ => true
  end.

Definition restore_fails_at_7 (c : SnapperCall) : bool :=
  match c with
  | ModifyCleanup n a => negb (Z.eqb n 7 && String.eqb a "number"%string)
  | ModifyUserdata _ _ => true
  end.

Lemma prevent_cleanup_success_witness :
  (forall s, In s [snap 5; snap 7] ->
     cleanup_ok (prevent_cleanup_call s) = true /\ cleanup_ok (restore_cleanup_call s) = true)
  /\ prevent_cleanup cleanup_ok false [snap 5; snap 7] (Ok 1%nat, [ModifyUserdata 5 "x"%string])
     = (fst (Ok 1%nat, [ModifyUserdata 5 "x"%string]),
        map prevent_cleanup_call [snap 5; snap 7] ++ snd (Ok 1%nat, [ModifyUserdata 5 "x"%string])
        ++ map restore_cleanup_call [snap 5; snap 7]).
Proof.
  assert (H : forall s, In s [snap 5; snap 7] ->
     cleanup_ok (prevent_cleanup_call s) = true /\ cleanup_ok (restore_cleanup_call s) = true)
    by (intros s _; split; reflexivity).
  split; [exact H | exact (prevent_cleanup_success cleanup_ok _ _ H)].
Defined.

Lemma prevent_cleanup_prevent_fails_witness :
  (forall x, In x [snap 5] -> prevent_fails_at_7 (prevent_cleanup_call x) = true)
  /\ prevent_fails_at_7 (prevent_cleanup_call (snap 7)) = false
  /\ prevent_cleanup prevent_fails_at_7 false ([snap 5] ++ snap 7 :: [snap 9]) (Ok tt, [])
     = (Raise SnapperExecutionException, map prevent_cleanup_call ([snap 5] ++ [snap 7])).
Proof.
  assert (H1 : forall x, In x [snap 5] -> prevent_fails_at_7 (prevent_cleanup_call x) = true)
    by (intros x [<-|[]]; reflexivity).
  assert (H2 : prevent_fails_at_7 (prevent_cleanup_call (snap 7)) = false) by reflexivity.
  split; [exact H1|]. split; [exact H2|].
  exact (prevent_cleanup_prevent_fails prevent_fails_at_7 _ _ _ _ H1 H2).
Defined.

Lemma prevent_cleanup_restore_fails_witness :
  (forall x, In x ([snap 5] ++ snap 7 :: [snap 9]) ->
     restore_fails_at_7 (prevent_cleanup_call x) = true)
  /\ (forall x, In x [snap 5] -> restore_fails_at_7 (restore_cleanup_call x) = true)
  /\ restore_fails_at_7 (restore_cleanup_call (snap 7)) = false
  /\ prevent_cleanup restore_fails_at_7 false ([snap 5] ++ snap 7 :: [snap 9]) (Ok tt, [])
     = (Raise SnapperExecutionException,
        map prevent_cleanup_call ([snap 5] ++ snap 7 :: [snap 9]) ++ snd (@Ok unit tt, @nil SnapperCall)
        ++ map restore_cleanup_call ([snap 5] ++ [snap 7])).
Proof.
  assert (H1 : forall x, In x ([snap 5] ++ snap 7 :: [snap 9]) ->
     restore_fails_at_7 (prevent_cleanup_call x) = true)
    by (intros x [<-|[<-|[<-|[]]]]; reflexivity).
  assert (H2 : forall x, In x [snap 5] -> restore_fails_at_7 (restore_cleanup_call x) = true)
    by (intros x [<-|[]]; reflexivity).
  assert (H3 : restore_fails_at_7 (restore_cleanup_call (snap 7)) = false) by reflexivity.
  split; [exact H1|]. split; [exact H2|]. split; [exact H3|].
  exact (prevent_cleanup_restore_fails restore_fails_at_7 _ _ _ (Ok tt, []) H1 H2 H3).
Defined.

End SnapperTraceSpec.

(** ** [snapborg/commands/snapborg.py]: configs and the overall backup *)
Module CliSpec.
Import Results ResultsSpec Cli.
Local Open Scope string_scope.

Lemma status_from_children_ERR ch m t :
  status_eqb (status (from_children ch m t)) ERR
  = existsb (fun r => status_eqb (status r) ERR) ch.
Proof.
  cbn [from_children status].
  destruct (forallb (fun it => status_eqb (status it) OK) ch) eqn:Ef.
  - destruct (existsb (fun r => status_eqb (status r) ERR) ch) eqn:Ee; [|reflexivity].
    apply forallb_OK, Forall_OK_not_ERR in Ef. apply existsb_ERR in Ee. contradiction.
  - destruct (existsb _ ch); reflexivity.
Qed.

Lemma filter_nil_iff {C} (p : C -> bool) l :
  filter p l = [] <-> forall c, In c l -> p c = false.
Proof.
  induction l as [|x l IH]; cbn [filter]; [split; [intros _ c []|reflexivity]|].
  destruct (p x) eqn:Ex; split.
  - discriminate.
  - intros H. rewrite (H x (or_introl eq_refl)) in Ex. discriminate.
  - intros H c [<-|Hc]; [exact Ex | apply IH; assumption].
  - intros H. apply IH. intros c Hc. apply H. right. exact Hc.
Qed.

(** X12: [get_snapper_configs] with a (non-empty) config name that some
    config has selects exactly the configs of that name, in their order. *)
Theorem get_snapper_configs_found {C} (config_name : C -> string) configs a :
  a <> EmptyString ->
  (exists c, In c configs /\ config_name c = a) ->
  exists cs, get_snapper_configs config_name configs (Some a) = Ret cs /\ cs <> []
             /\ cs = filter (fun c => String.eqb (config_name c) a) configs
             /\ forall c, In c cs <-> In c configs /\ config_name c = a.
Proof.
  intros Ha [c0 Hc0]. unfold get_snapper_configs.
  apply String.eqb_neq in Ha. rewrite Ha.
  assert (Hin : forall c, In c (filter (fun c => String.eqb (config_name c) a) configs)
                     <-> In c configs /\ config_name c = a).
  { intros c. rewrite filter_In, String.eqb_eq. reflexivity. }
  destruct (filter (fun c => String.eqb (config_name c) a) configs) as [|c1 cs] eqn:Ef.
  - apply Hin in Hc0. destruct Hc0.
  - exists (c1 :: cs). split; [reflexivity|]. split; [discriminate|].
    split; [reflexivity | exact Hin].
Qed.

(** X13: [get_snapper_configs] with a (non-empty) config name that no config
    has raises [InvalidParameterException] naming it in double quotes. *)
Theorem get_snapper_configs_missing {C} (config_name : C -> string) configs a :
  a <> EmptyString ->
  (forall c, In c configs -> config_name c <> a) ->
  get_snapper_configs config_name configs (Some a)
    = Throw (InvalidParameterException ("No such config " ++ dquote ++ a ++ dquote)).
Proof.
  intros Ha H. unfold get_snapper_configs.
  apply String.eqb_neq in Ha. rewrite Ha.
  assert (Ef : filter (fun c => String.eqb (config_name c) a) configs = []).
  { apply filter_nil_iff. intros c Hc. apply String.eqb_neq. exact (H c Hc). }
  rewrite Ef. reflexivity.
Qed.

(** X14: [backup] raises [SnapborgBaseException] exactly when the backup of
    some snapshot of some config to some repository ended in ERR;
    otherwise it prunes when [prune_old_backups] is set, and does nothing
    more when it is not. *)
Theorem backup_outcome configs recreate prune_old_backups prune_all :
  backup configs recreate prune_old_backups prune_all
  = if existsb (fun c => existsb (fun r => status_eqb (status r) ERR) (snd c)) configs
    then Throw SnapborgBaseException
    else if prune_old_backups then prune_all else Ret tt.
Proof.
  unfold backup. rewrite status_from_children_ERR.
  replace (existsb _ (map _ configs)) with
    (existsb (fun c => existsb (fun r => status_eqb (status r) ERR) (snd c)) configs);
    [reflexivity|].
  induction configs as [|c rest IH]; [reflexivity|]. cbn [map existsb].
  unfold backup_config. rewrite status_from_children_ERR, IH. reflexivity.
Qed.


Definition config_names : list string := ["root"; "home"].

Lemma get_snapper_configs_found_witness :
  "home" <> EmptyString /\ (exists c, In c config_names /\ c = "home")
  /\ exists cs, get_snapper_configs (fun c => c) config_names (Some "home") = Ret cs
                /\ cs <> [] /\ cs = filter (fun c => String.eqb c "home") config_names
                /\ forall c, In c cs <-> In c config_names /\ c = "home".
Proof.
  assert (H1 : "home" <> EmptyString) by discriminate.
  assert (H2 : exists c, In c config_names /\ c = "home")
    by (exists "home"; split; [right; left; reflexivity | reflexivity]).
  split; [exact H1|]. split; [exact H2|].
  exact (get_snapper_configs_found (fun c => c) config_names "home" H1 H2).
Defined.

Lemma get_snapper_configs_missing_witness :
  "var" <> EmptyString /\ (forall c, In c config_names -> c <> "var")
  /\ get_snapper_configs (fun c => c) config_names (Some "var")
       = Throw (InvalidParameterException ("No such config " ++ dquote ++ "var" ++ dquote)).
Proof.
  assert (H1 : "var" <> EmptyString) by discriminate.
  assert (H2 : forall c, In c config_names -> c <> "var")
    by (intros c [<-|[<-|[]]]; discriminate).
  split; [exact H1|]. split; [exact H2|].
  exact (get_snapper_configs_missing (fun c => c) config_names "var" H1 H2).
Defined.

End CliSpec.

(** ** [snapborg/util.py] [split] and [snapborg/retention.py] *)
Module RetentionExtra.
Import PyDatetime Retention.

(** X15: [split(data, pred)] is the pair of the items satisfying [pred] and
    the items not satisfying it, each in input order. *)
Theorem split_filter {X} (data : list X) (pred : X -> bool) :
  Util.split data pred = (filter pred data, filter (fun x => negb (pred x)) data).
Proof.
  induction data as [|d rest IH]; [reflexivity|]. cbn [Util.split filter].
  rewrite IH. destruct (pred d); reflexivity.
Qed.

Section Budget.
Variable A : Type.
Variable A_eq_dec : forall a b : A, {a = b} + {a <> b}.

Lemma set_add_length a s : (List.length (set_add A_eq_dec a s) <= S (List.length s))%nat.
Proof.
  unfold set_add. destruct (in_dec A_eq_dec a s); [lia|].
  rewrite length_app. simpl. lia.
Qed.

Lemma tier_step_budget t s s' :
  tier_step A_eq_dec t s = inl s' ->
  (List.length (retained s') + Z.to_nat (nr_keep s')
   <= List.length (retained s) + Z.to_nat (nr_keep s))%nat.
Proof.
  unfold tier_step. destruct (_ && _) eqn:G; [|discriminate].
  apply andb_true_iff in G as [G _]. apply Z.ltb_lt in G.
  destruct (Util.split _ _) as [c rem].
  destruct (py_max_by_date c) as [e|];
  destruct (prev_date_fn t (int_start s)); try discriminate;
  intros H; inversion H; subst; simpl; [|lia].
  pose proof (set_add_length (snd e) (retained s)). lia.
Qed.

Lemma tier_loop_budget t s r :
  tier_loop A_eq_dec t s = Ok r ->
  (List.length r <= List.length (retained s) + Z.to_nat (nr_keep s))%nat.
Proof.
  unfold tier_loop.
  apply (tier_loop_acc_elim A A_eq_dec (fun s res => res = Ok r ->
           (List.length r <= List.length (retained s) + Z.to_nat (nr_keep s))%nat)).
  - intros s0 r0 H ->. apply tier_step_done in H as [H|[e H]]; [|discriminate].
    injection H as ->. lia.
  - intros s0 s' r0 H IH Hr. apply tier_step_budget in H. specialize (IH Hr). lia.
Qed.

Definition tier_budget (tds : list (Z * Tier * datetime)) : nat :=
  list_sum (map (fun td => Z.to_nat (fst (fst td))) tds).

Lemma run_tiers_budget now wd tds ret r :
  run_tiers A_eq_dec now wd tds ret = Ok r ->
  (List.length r <= List.length ret + tier_budget tds)%nat.
Proof.
  revert ret. induction tds as [|[[nk t] fd] rest IH]; simpl; intros ret H.
  - injection H as <-. unfold tier_budget. simpl. lia.
  - apply bind_inv in H as [ret' [E H]]. apply tier_loop_budget in E. simpl in E.
    apply IH in H. unfold tier_budget in *. simpl. lia.
Qed.

Lemma fold_set_add_length (l : list (entry A)) acc :
  (List.length (fold_left (fun r it => set_add A_eq_dec (snd it) r) l acc)
   <= List.length acc + List.length l)%nat.
Proof.
  revert acc. induction l as [|e l IH]; simpl; intros acc; [lia|].
  specialize (IH (set_add A_eq_dec (snd e) acc)).
  pose proof (set_add_length (snd e) acc). lia.
Qed.

Lemma slice_last_length k (l : list (entry A)) :
  (List.length (slice_last k l) <= Z.to_nat k)%nat.
Proof. unfold slice_last. rewrite length_skipn. lia. Qed.

End Budget.

(** X16: [get_retained_snapshots] retains at most [keep_last] plus the sum
    of the [keep_*] counts of the tiers (negative counts counting as 0). *)
Theorem retained_count_bound {A} (A_eq_dec : forall a b : A, {a = b} + {a <> b})
  now (snapshots : list A) date_key kl km kh kd kw kmo ky r :
  get_retained_snapshots A_eq_dec now snapshots date_key kl km kh kd kw kmo ky = Ok r ->
  (List.length r <= Z.to_nat kl + Z.to_nat km + Z.to_nat kh + Z.to_nat kd
                    + Z.to_nat kw + Z.to_nat kmo + Z.to_nat ky)%nat.
Proof.
  unfold get_retained_snapshots. intros H.
  apply bind_inv in H as [ws [_ H]]. apply run_tiers_budget in H.
  unfold tier_budget in H. simpl in H.
  destruct (0 <? kl) eqn:Ek; simpl in H; [|lia].
  pose proof (fold_set_add_length A A_eq_dec
                (slice_last kl (sort_entries (map (fun s => (date_key s, s)) snapshots))) []).
  pose proof (slice_last_length A kl (sort_entries (map (fun s => (date_key s, s)) snapshots))).
  simpl in *. lia.
Qed.

(** X17: with a positive [keep_last] at least the number of items, every
    item is retained, whatever the other [keep_*] counts. *)
Theorem keep_last_covers_all {A} (A_eq_dec : forall a b : A, {a = b} + {a <> b})
  now (snapshots : list A) date_key kl km kh kd kw kmo ky r :
  0 < kl -> (List.length snapshots <= Z.to_nat kl)%nat ->
  get_retained_snapshots A_eq_dec now snapshots date_key kl km kh kd kw kmo ky = Ok r ->
  forall a, In a snapshots -> In a r.
Proof.
  intros Hk Hn H a Ha.
  apply (RetentionSpec.get_retained_keep_last A A_eq_dec _ _ _ _ _ _ _ _ _ _ _ H Hk
           (date_key a, a)).
  pose proof (sort_entries_perm A (map (fun s => (date_key s, s)) snapshots)) as Hp.
  unfold slice_last. rewrite (Permutation_length Hp), length_map.
  replace (List.length snapshots - Z.to_nat kl)%nat with 0%nat by lia. simpl.
  apply (Permutation_in _ (Permutation_sym Hp)). apply in_map_iff. exists a. auto.
Qed.

(** The input of [keep_daily_example]. *)
Lemma retained_count_bound_witness :
  get_retained_snapshots Z.eq_dec (of_ymd 2024 1 8) [1; 2; 3; 4; 5; 6; 7]
    (fun i => of_ymd 2024 1 i) 0 0 0 3 0 0 0 = Ok [7; 6; 5]
  /\ (List.length [7; 6; 5] <= Z.to_nat 0 + Z.to_nat 0 + Z.to_nat 0 + Z.to_nat 3
                              + Z.to_nat 0 + Z.to_nat 0 + Z.to_nat 0)%nat.
Proof.
  assert (H : get_retained_snapshots Z.eq_dec (of_ymd 2024 1 8) [1; 2; 3; 4; 5; 6; 7]
                (fun i => of_ymd 2024 1 i) 0 0 0 3 0 0 0 = Ok [7; 6; 5])
    by (vm_compute; reflexivity).
  split; [exact H | exact (retained_count_bound Z.eq_dec _ _ _ _ _ _ _ _ _ _ _ H)].
Defined.

Lemma keep_last_covers_all_witness :
  0 < 5 /\ (List.length [1; 2; 3] <= Z.to_nat 5)%nat
  /\ get_retained_snapshots Z.eq_dec (of_ymd 2024 1 8) [1; 2; 3]
       (fun i => of_ymd 2024 1 i) 5 0 0 0 0 0 0 = Ok [1; 2; 3]
  /\ forall a, In a [1; 2; 3] -> In a [1; 2; 3].
Proof.
  assert (H : get_retained_snapshots Z.eq_dec (of_ymd 2024 1 8) [1; 2; 3]
                (fun i => of_ymd 2024 1 i) 5 0 0 0 0 0 0 = Ok [1; 2; 3])
    by (vm_compute; reflexivity).
  split; [lia|]. split; [simpl; lia|]. split; [exact H|].
  exact (keep_last_covers_all Z.eq_dec (of_ymd 2024 1 8) [1; 2; 3] (fun i => of_ymd 2024 1 i)
           5 0 0 0 0 0 0 [1; 2; 3] ltac:(lia) ltac:(simpl; lia) H).
Defined.

End RetentionExtra.

(** ** [snapborg/snapper.py]: backup tags *)
Module SnapperSpec.
Import Config Snapper.
Local Open Scope string_scope.

Lemma str_set_add_nodup a s : NoDup s -> NoDup (str_set_add a s).
Proof.
  unfold str_set_add. destruct (existsb (String.eqb a) s) eqn:E; [auto|].
  intros Hs. apply NoDup_app; [exact Hs | repeat constructor; auto |].
  intros x Hx [<-|[]]. assert (existsb (String.eqb a) s = true) as Ht.
  { apply existsb_exists. exists a. split; [exact Hx | apply String.eqb_refl]. }
  congruence.
Qed.

Lemma existsb_eqb_app a s t :
  existsb (String.eqb a) (s ++ t) = existsb (String.eqb a) s || existsb (String.eqb a) t.
Proof. apply existsb_app. Qed.

Lemma str_set_add_mem a b s :
  existsb (String.eqb b) (str_set_add a s)
  = if String.eqb b a then true else existsb (String.eqb b) s.
Proof.
  unfold str_set_add. destruct (String.eqb b a) eqn:Eb.
  - apply String.eqb_eq in Eb as ->. destruct (existsb (String.eqb a) s) eqn:E; [exact E|].
    rewrite existsb_eqb_app. simpl. rewrite String.eqb_refl, orb_true_r. reflexivity.
  - destruct (existsb (String.eqb a) s); [reflexivity|].
    rewrite existsb_eqb_app. simpl. rewrite Eb, !orb_false_r. reflexivity.
Qed.

Lemma str_set_discard_mem a b s :
  existsb (String.eqb b) (str_set_discard a s)
  = if String.eqb b a then false else existsb (String.eqb b) s.
Proof.
  unfold str_set_discard. induction s as [|x s IH]; simpl; [destruct (String.eqb b a); reflexivity|].
  rewrite (String.eqb_sym b x).
  destruct (String.eqb x a) eqn:Ex; simpl.
  - apply String.eqb_eq in Ex as ->. rewrite IH.
    destruct (String.eqb b a) eqn:Eb; [reflexivity|]. rewrite String.eqb_sym, Eb. reflexivity.
  - rewrite String.eqb_sym, IH. destruct (String.eqb b a) eqn:Eb; [|reflexivity].
    apply String.eqb_eq in Eb as ->. rewrite Ex. reflexivity.
Qed.

Lemma set_backup_status_state ok s repo status dryrun :
  let s' := snd (set_backup_status ok s repo status dryrun) in
  is_backed_up s' repo = status
  /\ (forall other, other <> repo -> is_backed_up s' other = is_backed_up s other)
  /\ number s' = number s /\ date s' = date s /\ _cleanup s' = _cleanup s
  /\ (NoDup (_is_backed_up s) -> NoDup (_is_backed_up s')).
Proof.
  unfold set_backup_status, is_backed_up, with_backed_up. cbn [snd _is_backed_up number date _cleanup].
  split; [|split; [|split; [reflexivity|split; [reflexivity|split; [reflexivity|]]]]].
  - destruct status; [rewrite str_set_add_mem | rewrite str_set_discard_mem];
      rewrite String.eqb_refl; reflexivity.
  - intros other Ho. apply String.eqb_neq in Ho.
    destruct status; [rewrite str_set_add_mem | rewrite str_set_discard_mem]; rewrite Ho; reflexivity.
  - destruct status; [apply str_set_add_nodup | apply NoDup_filter].
Qed.

(** X18: [set_backup_status(repo, status)] leaves the snapshot marked as
    backed up to [repo] exactly when [status] is true, whether or not the
    snapper call succeeds; the marks for the other repositories, the
    number, date and cleanup algorithm are unchanged, and a set without
    duplicates stays so. *)
Theorem set_backup_status_effect ok s repo status dryrun :
  let s' := snd (set_backup_status ok s repo status dryrun) in
  is_backed_up s' repo = status
  /\ (forall other, other <> repo -> is_backed_up s' other = is_backed_up s other)
  /\ number s' = number s /\ date s' = date s /\ _cleanup s' = _cleanup s
  /\ (NoDup (_is_backed_up s) -> NoDup (_is_backed_up s')).
Proof. exact (set_backup_status_state ok s repo status dryrun). Qed.

(** X19: a non-empty set of distinct repository names (without separators,
    brackets or whitespace) written as the [snapborg_backup_repos] tag is
    read back as the same set. *)
Theorem backup_tag_roundtrip S :
  S <> [] -> NoDup S -> Forall TagSpec.plain_name S ->
  parse_is_backed_up (Some [(SNAPBORG_BACKUP_KEY, serialize_is_backed_up S)]) = S.
Proof. exact (TagSpec.tag_roundtrip_nonempty S). Qed.

Lemma backup_tag_roundtrip_witness :
  ["offsite"; "usb-disk"] <> [] /\ NoDup ["offsite"; "usb-disk"]
  /\ Forall TagSpec.plain_name ["offsite"; "usb-disk"]
  /\ parse_is_backed_up (Some [(SNAPBORG_BACKUP_KEY, serialize_is_backed_up ["offsite"; "usb-disk"])])
     = ["offsite"; "usb-disk"].
Proof.
  assert (H1 : ["offsite"; "usb-disk"] <> []) by discriminate.
  assert (H2 : NoDup ["offsite"; "usb-disk"])
    by (constructor; [simpl; intros [H|[]]; discriminate|];
        constructor; [intros []|constructor]).
  assert (H3 : Forall TagSpec.plain_name ["offsite"; "usb-disk"])
    by (repeat constructor).
  split; [exact H1|]. split; [exact H2|]. split; [exact H3|].
  exact (backup_tag_roundtrip _ H1 H2 H3).
Defined.

End SnapperSpec.

(** ** [snapborg/commands/snapborg.py]: backing up to one repository *)
Module CommandsSpec.
Import PyDatetime Config Results Snapper Commands.
Local Open Scope string_scope.

Lemma store_set_length st i s : List.length (store_set st i s) = List.length st.
Proof.
  revert i. induction st as [|x st IH]; intros [|i]; simpl; try reflexivity. rewrite IH. reflexivity.
Qed.

Lemma store_get_set_other st i j s : i <> j -> store_get (store_set st i s) j = store_get st j.
Proof.
  unfold store_get. revert i j. induction st as [|x st IH]; intros [|i] [|j] H; simpl;
    try reflexivity; try congruence.
  apply IH. congruence.
Qed.

(** X20: the candidates of [backup_to_repo] are distinct positions of the
    snapshot list, none of them already backed up to the repository unless
    [recreate] is set. *)
Theorem select_candidates_spec w repo recreate st cands :
  select_candidates w repo recreate st = Ok cands ->
  NoDup cands
  /\ forall i, In i cands ->
       (i < List.length st)%nat
       /\ (recreate = false -> is_backed_up (store_get st i) (name repo) = false).
Proof.
  unfold select_candidates. intros H. apply bind_inv in H as [ret [Hg H]].
  injection H as <-.
  apply RetentionSpec.get_retained_sub in Hg as [Hnd Hincl].
  split; [apply NoDup_filter; exact Hnd|].
  intros i Hi. apply filter_In in Hi as [Hi Hb]. split.
  - apply Hincl, in_seq in Hi. lia.
  - intros ->. rewrite orb_false_r in Hb. apply negb_true_iff in Hb. exact Hb.
Qed.

(** X21: when borg (and, under [recreate], [borg delete]) succeeds and
    snapper accepts every call, [backup_snapshot] returns an OK result and
    the snapshot is marked as backed up to the repository; its number and
    its marks for other repositories are kept. *)
Theorem backup_snapshot_success w repo recreate dryrun s :
  (forall c, snapper_ok w c = true) ->
  borg_call (borg_create_rc w (number s)) = Ok tt ->
  (recreate = true -> borg_call (borg_delete_rc w (number s)) = Ok tt) ->
  exists r s', backup_snapshot w repo recreate dryrun s = (Ok r, s')
    /\ status r = OK /\ is_backed_up s' (name repo) = true /\ number s' = number s
    /\ (forall other, other <> name repo -> is_backed_up s' other = is_backed_up s other).
Proof.
  intros Hok Hc Hd. unfold backup_snapshot, backup_snapshot_try, st_bind, st_ret, borg_on, set_status.
  destruct recreate.
  - rewrite (Hd eq_refl).
    destruct (set_backup_status (snapper_ok w) s (name repo) false dryrun) as [r0 s0] eqn:E0.
    pose proof (BackupSpec.set_backup_status_ok _ s (name repo) false dryrun Hok) as H0.
    pose proof (SnapperSpec.set_backup_status_state (snapper_ok w) s (name repo) false dryrun)
      as (_ & Ho0 & Hn0 & _).
    rewrite E0 in H0, Ho0, Hn0. cbn [fst snd] in H0, Ho0, Hn0. subst r0.
    rewrite Hn0, Hc.
    destruct (set_backup_status (snapper_ok w) s0 (name repo) true dryrun) as [r1 s1] eqn:E1.
    pose proof (BackupSpec.set_backup_status_ok _ s0 (name repo) true dryrun Hok) as H1.
    pose proof (SnapperSpec.set_backup_status_state (snapper_ok w) s0 (name repo) true dryrun)
      as (Hb1 & Ho1 & Hn1 & _).
    rewrite E1 in H1, Hb1, Ho1, Hn1. cbn [fst snd] in H1, Hb1, Ho1, Hn1. subst r1.
    eexists _, s1. split; [reflexivity|]. split; [reflexivity|]. split; [exact Hb1|].
    split; [congruence|]. intros other Hne. rewrite Ho1, Ho0 by exact Hne. reflexivity.
  - rewrite Hc.
    destruct (set_backup_status (snapper_ok w) s (name repo) true dryrun) as [r1 s1] eqn:E1.
    pose proof (BackupSpec.set_backup_status_ok _ s (name repo) true dryrun Hok) as H1.
    pose proof (SnapperSpec.set_backup_status_state (snapper_ok w) s (name repo) true dryrun)
      as (Hb1 & Ho1 & Hn1 & _).
    rewrite E1 in H1, Hb1, Ho1, Hn1. cbn [fst snd] in H1, Hb1, Ho1, Hn1. subst r1.
    eexists _, s1. split; [reflexivity|]. split; [reflexivity|]. split; [exact Hb1|].
    split; [exact Hn1|]. exact Ho1.
Qed.

(** X22: when [borg create] fails with a return code other than "archive
    already exists", [backup_snapshot] returns an ERR result; the snapshot
    is then not marked as backed up under [recreate] (its mark was removed
    before the new archive was tried), and is left as it was otherwise. *)
Theorem backup_snapshot_borg_error w repo recreate dryrun s rc :
  borg_call (borg_create_rc w (number s)) = Raise (BorgExecutionException rc) ->
  rc <> BORG_RETURNCODE_ARCHIVE_EXISTS ->
  (recreate = true ->
   borg_call (borg_delete_rc w (number s)) = Ok tt /\ forall c, snapper_ok w c = true) ->
  exists r s', backup_snapshot w repo recreate dryrun s = (Ok r, s') /\ status r = ERR
    /\ is_backed_up s' (name repo) = (if recreate then false else is_backed_up s (name repo))
    /\ (recreate = false -> s' = s).
Proof.
  intros Hc Hrc Hd. apply Z.eqb_neq in Hrc.
  unfold backup_snapshot, backup_snapshot_try, st_bind, st_ret, borg_on, set_status.
  destruct recreate.
  - destruct (Hd eq_refl) as [Hdel Hok]. rewrite Hdel.
    destruct (set_backup_status (snapper_ok w) s (name repo) false dryrun) as [r0 s0] eqn:E0.
    pose proof (BackupSpec.set_backup_status_ok _ s (name repo) false dryrun Hok) as H0.
    pose proof (SnapperSpec.set_backup_status_state (snapper_ok w) s (name repo) false dryrun)
      as (Hb0 & _ & Hn0 & _).
    rewrite E0 in H0, Hb0, Hn0. cbn [fst snd] in H0, Hb0, Hn0. subst r0.
    rewrite Hn0, Hc, Hrc. cbn [andb].
    eexists _, s0. split; [reflexivity|]. split; [reflexivity|]. split; [exact Hb0|].
    discriminate.
  - rewrite Hc, Hrc. cbn [andb].
    eexists _, s. split; [reflexivity|]. split; [reflexivity|]. split; reflexivity.
Qed.

(** X23: backing up the candidates leaves the number of snapshot objects
    unchanged and does not touch the snapshots that are not candidates,
    whatever the outcome. *)
Theorem backup_all_frame w repo recreate dryrun cands st :
  List.length (snd (backup_all w repo recreate dryrun cands st)) = List.length st
  /\ forall j, ~ In j cands ->
     store_get (snd (backup_all w repo recreate dryrun cands st)) j = store_get st j.
Proof.
  revert st. induction cands as [|i rest IH]; intros st; [split; reflexivity|].
  cbn [backup_all]. unfold st_bind, st_ret, on_snapshot.
  destruct (backup_snapshot w repo recreate dryrun (store_get st i)) as [[r1|e1] s1].
  - destruct (IH (store_set st i s1)) as [Hl Hg].
    destruct (backup_all w repo recreate dryrun rest (store_set st i s1)) as [[rs|e] st2];
      cbn [snd] in *; (split; [rewrite Hl; apply store_set_length|]);
      intros j Hj; rewrite Hg by (intros H; apply Hj; right; exact H);
      apply store_get_set_other; intros ->; apply Hj; left; reflexivity.
  - cbn [snd]. split; [apply store_set_length|].
    intros j Hj. apply store_get_set_other. intros ->. apply Hj. left. reflexivity.
Qed.

Lemma newest_fold rest x :
  let m := fold_left (fun m s => if Z.ltb (date m) (date s) then s else m) rest x in
  (m = x \/ In m rest) /\ date x <= date m /\ forall s, In s rest -> date s <= date m.
Proof.
  revert x. induction rest as [|y rest IH]; intros x; cbn [fold_left].
  - split; [left; reflexivity|]. split; [lia|]. intros s [].
  - destruct (Z.ltb (date x) (date y)) eqn:E.
    + apply Z.ltb_lt in E. destruct (IH y) as [Hin [Hy Hs]].
      split; [right; destruct Hin as [->|H]; [left|right]; auto|].
      split; [lia|]. intros s [<-|H]; [exact Hy | apply Hs, H].
    + apply Z.ltb_ge in E. destruct (IH x) as [Hin [Hx Hs]].
      split; [destruct Hin as [->|H]; [left; reflexivity | right; right; exact H]|].
      split; [exact Hx|]. intros s [<-|H]; [lia | apply Hs, H].
Qed.

(** X24: the newest backed-up snapshot found for the [fail_after] check is
    one of the backed-up snapshots, dated no earlier than any of them. *)
Theorem newest_by_date_max l m :
  newest_by_date l = Ok m -> In m l /\ forall s, In s l -> date s <= date m.
Proof.
  destruct l as [|x rest]; cbn [newest_by_date]; [discriminate|]. intros H. injection H as <-.
  destruct (newest_fold rest x) as [Hin [Hx Hs]].
  split; [destruct Hin as [->|H]; [left; reflexivity | right; exact H]|].
  intros s [<-|H]; [exact Hx | apply Hs, H].
Qed.

(** ** Witnesses *)

Definition snapshot_on (n day : Z) (tags : list string) : SnapperSnapshot :=
  mkSnapperSnapshot n (of_ymd 2024 1 day) "timeline" tags.

Definition example_store : Store :=
  [snapshot_on 1 1 []; snapshot_on 2 2 ["offsite"]; snapshot_on 3 3 []].

Definition example_repo3 : RepoConfig :=
  mkRepoConfig "offsite" "/srv/borg" false (mkRetentionConfig 3 0 0 0 0 0 0) (FailAfterBool true).

Lemma select_candidates_spec_witness :
  select_candidates (BackupSpec.example_world (fun _ => true) 0) example_repo3 false example_store
    = Ok [0%nat; 2%nat]
  /\ NoDup [0%nat; 2%nat]
  /\ forall i, In i [0%nat; 2%nat] ->
       (i < List.length example_store)%nat
       /\ (false = false -> is_backed_up (store_get example_store i) (name example_repo3) = false).
Proof.
  assert (H : select_candidates (BackupSpec.example_world (fun _ => true) 0) example_repo3 false
                example_store = Ok [0%nat; 2%nat]) by (vm_compute; reflexivity).
  split; [exact H|]. exact (select_candidates_spec _ _ _ _ _ H).
Defined.

Lemma backup_snapshot_success_witness :
  (forall c, snapper_ok (BackupSpec.example_world (fun _ => true) 0) c = true)
  /\ borg_call (borg_create_rc (BackupSpec.example_world (fun _ => true) 0)
                 (number (snapshot_on 1 1 []))) = Ok tt
  /\ (true = true -> borg_call (borg_delete_rc (BackupSpec.example_world (fun _ => true) 0)
                                 (number (snapshot_on 1 1 []))) = Ok tt)
  /\ exists r s', backup_snapshot (BackupSpec.example_world (fun _ => true) 0) example_repo3
                    true false (snapshot_on 1 1 []) = (Ok r, s')
    /\ status r = OK /\ is_backed_up s' (name example_repo3) = true
    /\ number s' = number (snapshot_on 1 1 [])
    /\ (forall other, other <> name example_repo3 ->
          is_backed_up s' other = is_backed_up (snapshot_on 1 1 []) other).
Proof.
  assert (H1 : forall c, snapper_ok (BackupSpec.example_world (fun _ => true) 0) c = true)
    by reflexivity.
  assert (H2 : borg_call (borg_create_rc (BackupSpec.example_world (fun _ => true) 0)
                 (number (snapshot_on 1 1 []))) = Ok tt) by reflexivity.
  assert (H3 : true = true -> borg_call (borg_delete_rc (BackupSpec.example_world (fun _ => true) 0)
                 (number (snapshot_on 1 1 []))) = Ok tt) by reflexivity.
  split; [exact H1|]. split; [exact H2|]. split; [exact H3|].
  exact (backup_snapshot_success _ example_repo3 true false _ H1 H2 H3).
Defined.

Lemma backup_snapshot_borg_error_witness :
  borg_call (borg_create_rc (BackupSpec.example_world (fun _ => true) 2)
               (number (snapshot_on 2 2 ["offsite"]))) = Raise (BorgExecutionException 2)
  /\ 2 <> BORG_RETURNCODE_ARCHIVE_EXISTS
  /\ (false = true ->
      borg_call (borg_delete_rc (BackupSpec.example_world (fun _ => true) 2)
                   (number (snapshot_on 2 2 ["offsite"]))) = Ok tt
      /\ forall c, snapper_ok (BackupSpec.example_world (fun _ => true) 2) c = true)
  /\ exists r s', backup_snapshot (BackupSpec.example_world (fun _ => true) 2) example_repo3
                    false false (snapshot_on 2 2 ["offsite"]) = (Ok r, s')
    /\ status r = ERR
    /\ is_backed_up s' (name example_repo3)
       = (if false then false else is_backed_up (snapshot_on 2 2 ["offsite"]) (name example_repo3))
    /\ (false = false -> s' = snapshot_on 2 2 ["offsite"]).
Proof.
  assert (H1 : borg_call (borg_create_rc (BackupSpec.example_world (fun _ => true) 2)
               (number (snapshot_on 2 2 ["offsite"]))) = Raise (BorgExecutionException 2))
    by reflexivity.
  assert (H2 : 2 <> BORG_RETURNCODE_ARCHIVE_EXISTS) by discriminate.
  assert (H3 : false = true ->
      borg_call (borg_delete_rc (BackupSpec.example_world (fun _ => true) 2)
                   (number (snapshot_on 2 2 ["offsite"]))) = Ok tt
      /\ forall c, snapper_ok (BackupSpec.example_world (fun _ => true) 2) c = true)
    by discriminate.
  split; [exact H1|]. split; [exact H2|]. split; [exact H3|].
  exact (backup_snapshot_borg_error _ example_repo3 false false _ 2 H1 H2 H3).
Defined.

Lemma newest_by_date_max_witness :
  newest_by_date example_store = Ok (snapshot_on 3 3 [])
  /\ In (snapshot_on 3 3 []) example_store
  /\ forall s, In s example_store -> date s <= date (snapshot_on 3 3 []).
Proof.
  assert (H : newest_by_date example_store = Ok (snapshot_on 3 3 [])) by (vm_compute; reflexivity).
  split; [exact H|]. exact (newest_by_date_max _ _ H).
Defined.

End CommandsSpec.
